(** * chamber_scraper: a shallow embedding of [chamber_scraper.py]

    The development follows the layout of the Python module: string
    primitives used by the scraper ([str.lower], [str.strip], [in],
    [startswith], slicing), the fragment of [re] used by its regular
    expressions, the part of a BeautifulSoup document the scraper queries,
    the four field extractors, the three page handlers of [ChamberScraper]
    and [save_to_csv].

    Python strings are modelled by [string]: a character is a code point
    below 256, and the character classes below are those of Python 3 on that
    range (checked against [re] and [str] of CPython 3.11). *)

From Stdlib Require Import String Ascii List Bool Arith Lia.
Import ListNotations.

Local Open Scope list_scope.
Local Open Scope string_scope.
Local Open Scope nat_scope.

(** ** Characters and strings *)

Module Str.

Definition code (c : ascii) : nat := nat_of_ascii c.

Definition between (a b : nat) (c : ascii) : bool :=
  (a <=? code c) && (code c <=? b).

(** [str.isspace] and the class [\s]: TAB..CR, FS..US, SPACE, NEL, NBSP. *)
Definition is_space (c : ascii) : bool :=
  between 9 13 c || between 28 32 c || (code c =? 133) || (code c =? 160).

(** The class [\d]. *)
Definition is_digit (c : ascii) : bool := between 48 57 c.

Definition is_upper_az (c : ascii) : bool := between 65 90 c.
Definition is_lower_az (c : ascii) : bool := between 97 122 c.
Definition is_alpha_az (c : ascii) : bool := is_upper_az c || is_lower_az c.

(** The class [\w]: alphanumeric characters and the underscore. *)
Definition is_word (c : ascii) : bool :=
  is_digit c || is_alpha_az c || (code c =? 95)
  || (code c =? 170) || (code c =? 178) || (code c =? 179) || (code c =? 181)
  || (code c =? 185) || (code c =? 186) || between 188 190 c
  || between 192 214 c || between 216 246 c || between 248 255 c.

(** [str.lower] on one character. *)
Definition lower_char (c : ascii) : ascii :=
  if is_upper_az c || (between 192 222 c && negb (code c =? 215))
  then ascii_of_nat (code c + 32)
  else c.

Fixpoint lower (s : string) : string :=
  match s with
  | EmptyString => EmptyString
  | String c s' => String (lower_char c) (lower s')
  end.

(** [s.startswith(x)] *)
Fixpoint startswith (x s : string) : bool :=
  match x, s with
  | EmptyString, _ => true
  | String a x', String b s' => Ascii.eqb a b && startswith x' s'
  | String _ _, EmptyString => false
  end.

(** [x in s] *)
Fixpoint contains (x s : string) : bool :=
  startswith x s ||
  match s with
  | EmptyString => false
  | String _ s' => contains x s'
  end.

(** [s[:n]] and [s[n:]] *)
Fixpoint take (n : nat) (s : string) : string :=
  match n, s with
  | S n', String c s' => String c (take n' s')
  | _, _ => EmptyString
  end.

Fixpoint drop (n : nat) (s : string) : string :=
  match n, s with
  | S n', String _ s' => drop n' s'
  | _, _ => s
  end.

Fixpoint lstrip (s : string) : string :=
  match s with
  | String c s' => if is_space c then lstrip s' else s
  | EmptyString => EmptyString
  end.

Fixpoint rstrip (s : string) : string :=
  match s with
  | EmptyString => EmptyString
  | String c s' =>
      match rstrip s' with
      | EmptyString => if is_space c then EmptyString else String c EmptyString
      | r => String c r
      end
  end.

(** [s.strip()] *)
Definition strip (s : string) : string := rstrip (lstrip s).

(** [''.join(l)] *)
Definition join (l : list string) : string := String.concat "" l.

(** Truthiness of a [str]. *)
Definition nonempty (s : string) : bool :=
  match s with EmptyString => false | String _ _ => true end.

Fixpoint all_in (c : ascii -> bool) (s : string) : bool :=
  match s with
  | EmptyString => true
  | String a s' => c a && all_in c s'
  end.

End Str.

(** ** The fragment of [re] used by the scraper

    Every regular expression of the module is a sequence of greedily
    quantified character classes.  [match_here] is the backtracking matcher
    at one position (longest repetition first, then shorter ones), and
    [search] is [re.search]: the leftmost position where the matcher
    succeeds, with the text it matched there ([match.group(0)]). *)

Module Re.
Import Str.

Record atom := Atom { cls : ascii -> bool; lo : nat; hi : option nat }.

Definition pattern := list atom.

Definition one (c : ascii -> bool) : atom := Atom c 1 (Some 1).
Definition opt (c : ascii -> bool) : atom := Atom c 0 (Some 1).
Definition exactly (n : nat) (c : ascii -> bool) : atom := Atom c n (Some n).
Definition at_least (n : nat) (c : ascii -> bool) : atom := Atom c n None.
Definition plus (c : ascii -> bool) : atom := at_least 1 c.
Definition star (c : ascii -> bool) : atom := at_least 0 c.

(** A literal character, and the same under [re.IGNORECASE]. *)
Definition chr (a : ascii) : ascii -> bool := Ascii.eqb a.
Definition chr_i (a : ascii) : ascii -> bool :=
  fun c => Ascii.eqb (lower_char a) (lower_char c).

(** [.] matches anything but a newline. *)
Definition dot (c : ascii) : bool := negb (code c =? 10).

Fixpoint literal (s : string) : pattern :=
  match s with
  | EmptyString => []
  | String a s' => one (chr a) :: literal s'
  end.

Fixpoint literal_i (s : string) : pattern :=
  match s with
  | EmptyString => []
  | String a s' => one (chr_i a) :: literal_i s'
  end.

(** Number of leading characters of [s] in the class, at most [cap]. *)
Fixpoint span (c : ascii -> bool) (cap : option nat) (s : string) : nat :=
  match s with
  | EmptyString => 0
  | String a s' =>
      if c a then
        match cap with
        | None => S (span c None s')
        | Some 0 => 0
        | Some (S h) => S (span c (Some h) s')
        end
      else 0
  end.

(** Try the continuation [k] after [lo + d], [lo + d - 1], ..., [lo]
    repetitions. *)
Fixpoint try_down (k : nat -> option nat) (lo d : nat) : option nat :=
  match k (lo + d) with
  | Some n => Some (lo + d + n)
  | None =>
      match d with
      | 0 => None
      | S d' => try_down k lo d'
      end
  end.

(** Length of the match of [p] at the start of [s], if there is one. *)
Fixpoint match_here (p : pattern) (s : string) : option nat :=
  match p with
  | [] => Some 0
  | a :: p' =>
      let m := span (cls a) (hi a) s in
      if m <? lo a then None
      else try_down (fun j => match_here p' (drop j s)) (lo a) (m - lo a)
  end.

Fixpoint search_from (p : pattern) (i : nat) (s : string)
  : option (nat * string) :=
  match match_here p s with
  | Some n => Some (i, take n s)
  | None =>
      match s with
      | EmptyString => None
      | String _ s' => search_from p (S i) s'
      end
  end.

(** [re.search(p, s)]: start index and matched text. *)
Definition search (p : pattern) (s : string) : option (nat * string) :=
  search_from p 0 s.

(** [bool(re.search(p, s))] *)
Definition found (p : pattern) (s : string) : bool :=
  match search p s with Some _ => true | None => false end.

(** [m.group(0) if m else ""] *)
Definition group0_or_empty (p : pattern) (s : string) : string :=
  match search p s with Some (_, m) => m | None => "" end.

(** *** The language of a pattern *)

Definition within (cap : option nat) (n : nat) : Prop :=
  match cap with None => True | Some h => n <= h end.

(** [matches p w]: the whole of [w] splits into one run per atom, each run
    within the atom's class and bounds. *)
Inductive matches : pattern -> string -> Prop :=
| matches_nil : matches [] ""
| matches_cons (a : atom) (p : pattern) (u v : string) :
    all_in (cls a) u = true ->
    lo a <= String.length u ->
    within (hi a) (String.length u) ->
    matches p v ->
    matches (a :: p) (u ++ v).

(** [w] occurs in [s] at index [i]. *)
Definition occurs_at (i : nat) (w s : string) : Prop :=
  exists pre post, s = pre ++ w ++ post /\ String.length pre = i.

End Re.

(** ** Parsed pages

    The part of a BeautifulSoup tree (Beautiful Soup 4.10 or later, built by
    [html.parser]) the scraper looks at: strings, and tags with a name,
    attributes and children.  Every string of the tree has a class;
    [.get_text()], [.text] and [.stripped_strings] of a tag keep only the
    strings whose class counts as text for that tag, while
    [.find(string=...)] looks at the strings of every class.  All traversals
    are in document order (a tag before its descendants, siblings left to
    right). *)

Module Soup.
Import Str.

(** The classes of strings: [NavigableString] and its subclasses. *)
Inductive kind : Type :=
| NavigableString
| CData
| Comment
| Declaration
| Doctype
| ProcessingInstruction
| Script
| Stylesheet
| TemplateString
| RubyTextString
| RubyParenthesisString.

(** [Text s] is character data of the page: the tree builder gives it the
    class of the innermost [rt], [rp], [style], [script] or [template]
    element it stands in, and [NavigableString] outside of these.
    [Typed k s] is a string whose class is given: a comment, a CDATA
    section, a declaration, ... *)
#[warnings="-register-all"]
Inductive node : Type :=
| Text (s : string)
| Typed (k : kind) (s : string)
| Tag (name : string) (attrs : list (string * string)) (children : list node).

Definition soup := list node.

Definition kind_code (k : kind) : nat :=
  match k with
  | NavigableString => 0
  | CData => 1
  | Comment => 2
  | Declaration => 3
  | Doctype => 4
  | ProcessingInstruction => 5
  | Script => 6
  | Stylesheet => 7
  | TemplateString => 8
  | RubyTextString => 9
  | RubyParenthesisString => 10
  end.

Definition kind_eqb (k1 k2 : kind) : bool := kind_code k1 =? kind_code k2.

(** The builder's [string_containers]. *)
Definition string_container (name : string) : option kind :=
  if (name =? "rt")%string then Some RubyTextString
  else if (name =? "rp")%string then Some RubyParenthesisString
  else if (name =? "style")%string then Some Stylesheet
  else if (name =? "script")%string then Some Script
  else if (name =? "template")%string then Some TemplateString
  else None.

(** A tag's [interesting_string_types]: the container's own class for the
    five containers, [NavigableString] and [CData] for every other tag and
    for the document. *)
Definition interesting_string_types (name : string) (k : kind) : bool :=
  match string_container name with
  | Some k0 => kind_eqb k0 k
  | None => kind_eqb NavigableString k || kind_eqb CData k
  end.

(** The tree as the builder leaves it: character data below a container
    gets the container's class. *)
Fixpoint settle_node (container : option kind) (n : node) : node :=
  match n with
  | Text s =>
      match container with
      | Some k => Typed k s
      | None => Text s
      end
  | Typed k s => Typed k s
  | Tag name attrs cs =>
      let inner :=
        match string_container name with
        | Some k => Some k
        | None => container
        end in
      Tag name attrs (map (settle_node inner) cs)
  end.

(** The [BeautifulSoup] object of a page, itself a tag. *)
Definition document (cs : list node) : node :=
  Tag "[document]" [] (map (settle_node None) cs).

Fixpoint get_attr (k : string) (attrs : list (string * string))
  : option string :=
  match attrs with
  | [] => None
  | (k', v) :: rest => if (k =? k')%string then Some v else get_attr k rest
  end.

Definition children (n : node) : list node :=
  match n with
  | Text _ => []
  | Typed _ _ => []
  | Tag _ _ cs => cs
  end.

Definition name_of_tag (n : node) : string :=
  match n with
  | Text _ => ""
  | Typed _ _ => ""
  | Tag name _ _ => name
  end.

Definition attr (k : string) (n : node) : option string :=
  match n with
  | Text _ => None
  | Typed _ _ => None
  | Tag _ attrs _ => get_attr k attrs
  end.

Definition has_name (x : string) (n : node) : bool :=
  match n with
  | Text _ => false
  | Typed _ _ => false
  | Tag name _ _ => (name =? x)%string
  end.

(** A string of the tree: its class, its text and its [.parent]. *)
Record navigable : Type := Navigable {
  class_of : kind;
  text_of : string;
  parent_of : node
}.

(** The strings below a node ([parent] is the parent of [n]). *)
Fixpoint node_strings (parent : node) (n : node) : list navigable :=
  match n with
  | Text s => [Navigable NavigableString s parent]
  | Typed k s => [Navigable k s parent]
  | Tag _ _ cs => flat_map (node_strings n) cs
  end.

(** The strings among the [.descendants] of a tag, of every class. *)
Definition all_strings (tag : node) : list navigable :=
  flat_map (node_strings tag) (children tag).

(** [tag._all_strings()]: the text of the strings that count for [tag]. *)
Definition tag_strings (tag : node) : list string :=
  map text_of
    (filter (fun x => interesting_string_types (name_of_tag tag) (class_of x))
       (all_strings tag)).

(** The tags below a node, the node itself included. *)
Fixpoint node_tags (n : node) : list node :=
  match n with
  | Text _ => []
  | Typed _ _ => []
  | Tag _ _ cs => n :: flat_map node_tags cs
  end.

(** The tags among the [.descendants] of the document or of a tag with
    contents [cs]. *)
Definition tags (cs : list node) : list node :=
  flat_map node_tags (children (document cs)).

(** [.strings] of the document, or of a tag that is no container, with
    contents [cs]. *)
Definition strings (cs : list node) : list string :=
  tag_strings (document cs).

(** [.get_text()], also [.text] *)
Definition get_text (cs : list node) : string := join (strings cs).

(** [.stripped_strings]: every string that counts stripped, the empty ones
    dropped. *)
Definition stripped_strings (cs : list node) : list string :=
  filter nonempty (map strip (strings cs)).

(** [tag.get_text(strip=True)] *)
Definition get_text_strip (tag : node) : string :=
  join (filter nonempty (map strip (tag_strings tag))).

(** [.find_all(name)] and [.find(name)] *)
Definition find_all (name : string) (cs : list node) : list node :=
  filter (has_name name) (tags cs).

Definition find (name : string) (cs : list node) : option node :=
  hd_error (find_all name cs).

(** [.find_all('a', href=p)]: the links whose [href] attribute exists and
    satisfies [p], each paired with its [link['href']]. *)
Fixpoint with_href (p : string -> bool) (l : list node)
  : list (string * node) :=
  match l with
  | [] => []
  | n :: rest =>
      match attr "href" n with
      | Some h => if p h then (h, n) :: with_href p rest else with_href p rest
      | None => with_href p rest
      end
  end.

Definition find_all_a (p : string -> bool) (cs : list node)
  : list (string * node) :=
  with_href p (find_all "a" cs).

(** [.find(string=p)]: the first string of the document, of whatever class,
    whose text satisfies [p]; its [.find_parent()] is its [parent_of]. *)
Definition find_string (p : string -> bool) (cs : list node)
  : option navigable :=
  List.find (fun x => p (text_of x)) (all_strings (document cs)).

End Soup.

(** ** The field extractors of [ChamberScraper] *)

Import Str Re Soup.

(** [\(?\d{3}\)?[-.\s]?\d{3}[-.\s]?\d{4}] *)
Definition phone_sep (c : ascii) : bool :=
  chr "-" c || chr "." c || is_space c.

Definition phone_pattern : pattern :=
  [ opt (chr "("); exactly 3 is_digit; opt (chr ")"); opt phone_sep;
    exactly 3 is_digit; opt phone_sep; exactly 4 is_digit ].

Definition extract_phone (soup : soup) : string :=
  let text := get_text soup in
  group0_or_empty phone_pattern text.

(** [\d+\s+\w+.*,\s*CT\s*\d{5}] *)
Definition address_pattern : pattern :=
  [ plus is_digit; plus is_space; plus is_word; star dot; one (chr ",");
    star is_space; one (chr "C"); one (chr "T"); star is_space;
    exactly 5 is_digit ].

Fixpoint address_loop (fragments : list string) : string :=
  match fragments with
  | [] => ""
  | text :: rest =>
      if found address_pattern text then text else address_loop rest
  end.

Definition extract_address (soup : soup) : string :=
  address_loop (stripped_strings soup).

(** [[a-zA-Z0-9._%+-]+@[a-zA-Z0-9.-]+\.[a-zA-Z]{2,}] *)
Definition email_local (c : ascii) : bool :=
  is_alpha_az c || is_digit c
  || chr "." c || chr "_" c || chr "%" c || chr "+" c || chr "-" c.

Definition email_domain (c : ascii) : bool :=
  is_alpha_az c || is_digit c || chr "." c || chr "-" c.

Definition email_pattern : pattern :=
  [ plus email_local; one (chr "@"); plus email_domain; one (chr ".");
    at_least 2 is_alpha_az ].

Definition extract_email (soup : soup) : string :=
  let text := get_text soup in
  group0_or_empty email_pattern text.

(** The two literal lists of [extract_website]. *)
Definition platform_denylist : list string :=
  [ "facebook.com"; "twitter.com"; "instagram.com"; "linkedin.com";
    "mailto:"; "tel:"; "business."; "chambermaster.blob" ].

Definition chamber_denylist : list string :=
  [ "goschamber.com"; "clintonchamber.org"; "easternchamberct.org";
    "mysticchamber.org"; "crvchamber.org" ].

(** [any(x in s for x in xs)] *)
Definition any_in (xs : list string) (s : string) : bool :=
  existsb (fun x => contains x s) xs.

(** The loop of [extract_website] over the [href]s of the page's links. *)
Fixpoint website_loop (hrefs : list string) : string :=
  match hrefs with
  | [] => ""
  | href :: rest =>
      if any_in platform_denylist (lower href) then website_loop rest
      else if startswith "http" href && negb (any_in chamber_denylist href)
      then href
      else website_loop rest
  end.

Definition extract_website (soup : soup) : string :=
  website_loop (map fst (find_all_a (fun _ => true) soup)).




(** The filter a link has to pass to be returned. *)
Definition qualifies (href : string) : bool :=
  negb (any_in platform_denylist (lower href))
  && startswith "http" href
  && negb (any_in chamber_denylist href).

(** ** Records, the scraper's state and its environment *)

(** The dictionary [business_data], one field per key. *)
Record business : Type := Business {
  business_name : string;
  chamber : string;
  category : string;
  phone : string;
  address : string;
  email : string;
  website : string;
  has_website : string;
  description : string;
  chamber_url : string;
  scraped_date : string
}.

(** What the scraper does not decide: URL resolution ([None] when
    [urljoin] raises [ValueError], as it does on [//[x/list/member/1]), the
    outcome of the [n]-th request ([None] when [session.get],
    [raise_for_status] or the parser raises), the date at that point, and
    whether [open(filename, 'w')] succeeds. *)
Record world : Type := World {
  urljoin : string -> string -> option string;
  fetch : nat -> string -> option soup;
  today : nat -> string;
  can_open : string -> bool
}.

(** Handler invocations, recorded on entry. *)
Inductive call : Type :=
| CallCategory (category_url chamber_name category_name : string)
| CallBusiness (business_url chamber_name category_name : string).

(** [self.businesses], the number of requests sent so far and the
    handler invocations so far. *)
Record scraper : Type := Scraper {
  businesses : list business;
  requests : nat;
  calls : list call
}.

Definition init : scraper := Scraper [] 0 [].

Definition enter (c : call) (st : scraper) : scraper :=
  Scraper (businesses st) (requests st) (calls st ++ [c])%list.

Definition sent (st : scraper) : scraper :=
  Scraper (businesses st) (S (requests st)) (calls st).

Definition append (b : business) (st : scraper) : scraper :=
  Scraper (businesses st ++ [b])%list (requests st) (calls st).

(** ** The page handlers *)

(** The business name: first [h1], else [title], else ["Unknown"].  A tag
    is always truthy, whatever its contents. *)
Definition name_of (soup : soup) : string :=
  match find "h1" soup with
  | Some h1 => strip (get_text (children h1))
  | None =>
      match find "title" soup with
      | Some title => strip (get_text (children title))
      | None => "Unknown"
      end
  end.

Definition about_pattern : pattern := literal_i "About Us".

Definition description_of (soup : soup) : string :=
  match find_string (found about_pattern) soup with
  | Some about_section => get_text_strip (parent_of about_section)
  | None => ""
  end.

Definition yes_no (website : string) : string :=
  if nonempty website then "Yes" else "No".

(** [description[:200] if description else ""] *)
Definition stored_description (description : string) : string :=
  if nonempty description then take 200 description else "".

Definition business_data (soup : soup)
  (business_url chamber_name category_name date : string) : business :=
  let website := extract_website soup in
  {| business_name := name_of soup;
     chamber := chamber_name;
     category := category_name;
     phone := extract_phone soup;
     address := extract_address soup;
     email := extract_email soup;
     website := website;
     has_website := yes_no website;
     description := stored_description (description_of soup);
     chamber_url := business_url;
     scraped_date := date |}.

Definition scrape_business (W : world)
  (business_url chamber_name category_name : string) (st : scraper)
  : scraper :=
  let st := enter (CallBusiness business_url chamber_name category_name) st in
  match fetch W (requests st) business_url with
  | None => sent st
  | Some soup =>
      let st := sent st in
      append (business_data soup business_url chamber_name category_name
                (today W (requests st))) st
  end.

Fixpoint business_loop (W : world) (category_url chamber_name
  category_name : string) (links : list (string * node)) (st : scraper)
  : scraper :=
  match links with
  | [] => st
  | (href, _) :: rest =>
      match urljoin W category_url href with
      | None => st
      | Some business_url =>
          business_loop W category_url chamber_name category_name rest
            (scrape_business W business_url chamber_name category_name st)
      end
  end.

Definition member_pattern : pattern := literal "/list/member/".

Definition scrape_category (W : world)
  (category_url chamber_name category_name : string) (st : scraper)
  : scraper :=
  let st := enter (CallCategory category_url chamber_name category_name) st in
  match fetch W (requests st) category_url with
  | None => sent st
  | Some soup =>
      business_loop W category_url chamber_name category_name
        (find_all_a (found member_pattern) soup) (sent st)
  end.

Fixpoint category_loop (W : world) (base_url chamber_name : string)
  (links : list (string * node)) (st : scraper) : scraper :=
  match links with
  | [] => st
  | (href, link) :: rest =>
      let category_name := strip (get_text (children link)) in
      match urljoin W base_url href with
      | None => st
      | Some category_url =>
          category_loop W base_url chamber_name rest
            (scrape_category W category_url chamber_name category_name st)
      end
  end.

Definition ql_pattern : pattern := literal "/list/ql/".

Definition scrape_chamber_list (W : world) (base_url chamber_name : string)
  (st : scraper) : scraper :=
  match fetch W (requests st) base_url with
  | None => sent st
  | Some soup =>
      category_loop W base_url chamber_name
        (find_all_a (found ql_pattern) soup) (sent st)
  end.

(** The loop of [main] over the chambers, given as (name, url) pairs. *)
Fixpoint scrape_chambers (W : world) (chambers : list (string * string))
  (st : scraper) : scraper :=
  match chambers with
  | [] => st
  | (name, url) :: rest =>
      scrape_chambers W rest (scrape_chamber_list W url name st)
  end.

(** ** Saving *)

Definition fieldnames : list string :=
  [ "business_name"; "chamber"; "category"; "phone"; "address"; "email";
    "website"; "has_website"; "description"; "chamber_url"; "scraped_date" ].

(** [rowdict.get(key, "")] *)
Definition getitem (key : string) (b : business) : string :=
  if (key =? "business_name")%string then business_name b
  else if (key =? "chamber")%string then chamber b
  else if (key =? "category")%string then category b
  else if (key =? "phone")%string then phone b
  else if (key =? "address")%string then address b
  else if (key =? "email")%string then email b
  else if (key =? "website")%string then website b
  else if (key =? "has_website")%string then has_website b
  else if (key =? "description")%string then description b
  else if (key =? "chamber_url")%string then chamber_url b
  else if (key =? "scraped_date")%string then scraped_date b
  else "".

(** A file written through [csv.DictWriter]: its rows of cells. *)
Definition csv_file : Type := list (list string).

Definition filesystem : Type := string -> option csv_file.

Definition write (filename : string) (content : csv_file) (fs : filesystem)
  : filesystem :=
  fun f => if (f =? filename)%string then Some content else fs f.

Definition writeheader : csv_file := [fieldnames].

Definition writerows (rows : list business) (file : csv_file) : csv_file :=
  (file ++ map (fun b => map (fun key => getitem key b) fieldnames) rows)%list.

(** [save_to_csv]: [None] when [open] raises (the exception is not caught). *)
Definition save_to_csv (W : world) (filename : string) (st : scraper)
  (fs : filesystem) : option filesystem :=
  match businesses st with
  | [] => Some fs
  | _ :: _ =>
      if can_open W filename
      then Some (write filename (writerows (businesses st) writeheader) fs)
      else None
  end.

(** ** Reading the specification

    Predicates that say what the specification's sentences ask for, used to
    compare them with the definitions above. *)

(** A decision procedure for [matches]: every split of [w] is tried. *)
Definition within_b (cap : option nat) (n : nat) : bool :=
  match cap with None => true | Some h => n <=? h end.

Fixpoint fullmatch (p : pattern) (w : string) : bool :=
  match p with
  | [] => (w =? "")%string
  | a :: p' =>
      existsb
        (fun j =>
           all_in (cls a) (take j w) && (lo a <=? j) && within_b (hi a) j
           && fullmatch p' (drop j w))
        (seq 0 (S (String.length w)))
  end.

(** [r] is the first substring of [s] that matches [p]. *)
Definition first_match (p : pattern) (s r : string) : Prop :=
  exists i,
    occurs_at i r s /\ matches p r /\
    forall j w, occurs_at j w s -> matches p w -> i <= j.

(** Some substring of [s] matches [p]: [s] matches in the sense of
    [re.search]. *)
Definition has_match (p : pattern) (s : string) : Prop :=
  exists j w, occurs_at j w s /\ matches p w.

(** No substring of [s] matches [p]. *)
Definition no_match (p : pattern) (s : string) : Prop :=
  forall j w, occurs_at j w s -> ~ matches p w.

(** [s] has a substring equal to ["About Us"] up to case. *)
Definition mentions_about_us (s : string) : Prop :=
  exists j w, occurs_at j w s /\ lower w = "about us".



(** "The trimmed visible text of the nearest ancestor of the first
    occurrence of About Us in the page text, truncated to 200 characters":
    the phrase is looked for in the strings that are text of the page, and
    the ancestor's text is trimmed as a whole. *)
Definition trimmed_text_description (soup : soup) : string :=
  match
    List.find
      (fun x =>
         interesting_string_types "[document]" (class_of x)
         && found about_pattern (text_of x))
      (all_strings (document soup))
  with
  | Some about_section =>
      take 200 (strip (join (tag_strings (parent_of about_section))))
  | None => ""
  end.

(** "An optional parenthesized 3-digit group, a 3-digit group, a 4-digit
    group, with space, hyphen, dot or no separators", the first group read
    either as optional or as optionally parenthesized. *)
Definition claimed_phone_shapes : list pattern :=
  [ [ one (chr "("); exactly 3 is_digit; one (chr ")"); opt phone_sep;
      exactly 3 is_digit; opt phone_sep; exactly 4 is_digit ];
    [ exactly 3 is_digit; opt phone_sep; exactly 3 is_digit; opt phone_sep;
      exactly 4 is_digit ];
    [ opt phone_sep; exactly 3 is_digit; opt phone_sep; exactly 4 is_digit ] ].

Definition claimed_phone_shape (w : string) : Prop :=
  exists p, In p claimed_phone_shapes /\ matches p w.

(** Invocations of the Business Page Handler, of the Category Page Handler. *)
Definition is_business_call (c : call) : bool :=
  match c with CallBusiness _ _ _ => true | CallCategory _ _ _ => false end.

Definition is_category_call (c : call) : bool :=
  match c with CallCategory _ _ _ => true | CallBusiness _ _ _ => false end.

(** The targets of the links of a listing page resolved before the first one
    on which [urljoin] raises. *)
Fixpoint resolved (W : world) (base : string) (links : list (string * node))
  : list (string * node) :=
  match links with
  | [] => []
  | (href, link) :: rest =>
      match urljoin W base href with
      | None => []
      | Some url => (url, link) :: resolved W base rest
      end
  end.

(** [urljoin] succeeds on every link of the list. *)
Definition resolvable (W : world) (base : string)
  (links : list (string * node)) : Prop :=
  forall href link, In (href, link) links -> urljoin W base href <> None.

(** ** The command line and [main] *)

Definition get_default_chambers : list (string * string) :=
  [ ("Old Saybrook Chamber", "https://business.goschamber.com/list");
    ("Eastern CT Chamber of Commerce",
     "https://business.easternchamberct.org/list");
    ("Mystic Chamber", "https://business.mysticchamber.org/list");
    ("CT River Valley Chamber", "https://business.crvchamber.org/list") ].

(** [x in l] *)
Definition mem (x : string) (l : list string) : bool :=
  existsb (String.eqb x) l.

(** [l.index(x)]; [None] when it raises [ValueError]. *)
Fixpoint index (x : string) (l : list string) : option nat :=
  match l with
  | [] => None
  | y :: rest => if (y =? x)%string then Some 0 else option_map S (index x rest)
  end.

(** [l.pop(i)]: the list left; [None] when it raises [IndexError]. *)
Fixpoint pop (i : nat) (l : list string) : option (list string) :=
  match l with
  | [] => None
  | y :: rest =>
      match i with
      | 0 => Some rest
      | S i' => option_map (cons y) (pop i' rest)
      end
  end.

(** The loop [for i in range(0, len(args), 2)], run on lists of even
    length only. *)
Fixpoint pairs (args : list string) : list (string * string) :=
  match args with
  | name :: url :: rest => (name, url) :: pairs rest
  | _ => []
  end.

Definition default_output : string := "chamber_businesses.csv".

(** The [--output] block: the file name and the arguments left, [None] when
    [IndexError] or [ValueError] is caught. *)
Definition read_output (args : list string) : option (string * list string) :=
  if mem "--output" args then
    match index "--output" args with
    | None => None
    | Some output_index =>
        match nth_error args (output_index + 1) with
        | None => None
        | Some output_file =>
            match pop output_index args with
            | None => None
            | Some args1 =>
                match pop output_index args1 with
                | None => None
                | Some args2 => Some (output_file, args2)
                end
            end
        end
    end
  else Some (default_output, args).

(** The chambers to scrape, [None] when the arguments do not come in
    pairs. *)
Definition read_chambers (args : list string)
  : option (list (string * string)) :=
  if List.length args =? 0 then Some get_default_chambers
  else if negb (List.length args mod 2 =? 0) then None
  else Some (pairs args).

(** What [main] decides from [sys.argv]. *)
Inductive outcome : Type :=
| Usage
| ListDefaults
| OutputError
| PairsError
| Run (output_file : string) (chambers : list (string * string)).

Definition main_args (argv : list string) : outcome :=
  if mem "--help" argv || mem "-h" argv then Usage
  else if mem "--list-defaults" argv then ListDefaults
  else
    let args := tl argv in
    match read_output args with
    | None => OutputError
    | Some (output_file, args) =>
        match read_chambers args with
        | None => PairsError
        | Some chambers => Run output_file chambers
        end
    end.

(** The scraper at the end of [main] (the initial one when nothing is
    scraped). *)
Definition main_scraper (W : world) (argv : list string) : scraper :=
  match main_args argv with
  | Run _ chambers => scrape_chambers W chambers init
  | _ => init
  end.

(** [main]: the files at the end, [None] when [save_to_csv] raises.
    [join_cwd] is [os.path.join(os.getcwd(), .)]. *)
Definition main (W : world) (join_cwd : string -> string)
  (argv : list string) (fs : filesystem) : option filesystem :=
  match main_args argv with
  | Run output_file chambers =>
      save_to_csv W (join_cwd output_file)
        (scrape_chambers W chambers init) fs
  | _ => Some fs
  end.

(** The two counts printed by [save_to_csv]: records without and with a
    website. *)
Definition no_website (bs : list business) : nat :=
  List.length (filter (fun b => negb (nonempty (website b))) bs).

Definition summary (bs : list business) : nat * nat :=
  (no_website bs, List.length bs - no_website bs).

(** The command-line arguments that spell a list of chambers. *)
Definition spelled (chambers : list (string * string)) : list string :=
  flat_map (fun c => [fst c; snd c]) chambers.

(** None of the three flags read before anything else is among [argv]. *)
Definition no_flag (argv : list string) : Prop :=
  ~ In "--help" argv /\ ~ In "-h" argv /\ ~ In "--list-defaults" argv.

(** ** What a traversal adds to the scraper's state *)

Definition call_chamber (c : call) : string :=
  match c with
  | CallCategory _ chamber_name _ => chamber_name
  | CallBusiness _ chamber_name _ => chamber_name
  end.

(** [st'] is [st] with records [bs] appended and invocations [cs] logged,
    after [k] requests for chamber root pages and one request per logged
    invocation; every invocation is for a chamber accepted by [ok], there
    are at most as many new records as Business Page Handler invocations,
    and every new record carries the URL, chamber and category of one of
    these. *)
Definition grows (k : nat) (ok : string -> Prop) (st st' : scraper) : Prop :=
  exists bs cs,
    businesses st' = (businesses st ++ bs)%list /\
    calls st' = (calls st ++ cs)%list /\
    requests st' = requests st + k + List.length cs /\
    (forall c, In c cs -> ok (call_chamber c)) /\
    List.length bs <= List.length (filter is_business_call cs) /\
    forall b, In b bs ->
      In (CallBusiness (chamber_url b) (chamber b) (category b)) cs.

(** ** Bounds on what a pattern matches *)

Fixpoint min_length (p : pattern) : nat :=
  match p with
  | [] => 0
  | a :: p' => lo a + min_length p'
  end.

Fixpoint max_length (p : pattern) : option nat :=
  match p with
  | [] => Some 0
  | a :: p' =>
      match hi a, max_length p' with
      | Some h, Some m => Some (h + m)
      | _, _ => None
      end
  end.

(** Every class of the pattern is included in [q]. *)
Definition classes_within (q : ascii -> bool) (p : pattern) : Prop :=
  Forall (fun a => forall c, cls a c = true -> q c = true) p.

(** [s] does not begin with a whitespace character. *)
Definition starts_clean (s : string) : Prop :=
  match s with
  | EmptyString => True
  | String c _ => is_space c = false
  end.

(** The characters a phone number is made of. *)
Definition phone_char (c : ascii) : bool :=
  is_digit c || chr "(" c || chr ")" c || phone_sep c.

Definition not_space (c : ascii) : bool := negb (is_space c).

(** ** Sample pages and environments *)

Definition page_c1 : soup :=
  [ Tag "a" [("href", "https://www.facebook.com/biz")] [Text "Facebook"];
    Tag "a" [("href", "/list/member/joes-diner-12")] [Text "Back"];
    Tag "a" [("href", "https://business.goschamber.com/list")] [];
    Tag "a" [("href", "https://joesdiner.example.com/")] [Text "Visit"] ].

Definition page_c2 : soup :=
  [ Tag "div" []
      [ Tag "a" [("href", "https://facebook.com/x")] [];
        Tag "a" [("href", "tel:123")] [];
        Tag "p" [] [Tag "a" [("href", "https://example-biz.com")] []];
        Tag "a" [("href", "https://second.example.org")] [] ] ].

Definition page_c6 : soup :=
  [ Tag "p" [] [Text "Call (203 555-1234 today"] ].

Definition page_contact : soup :=
  [ Tag "html" []
      [ Tag "head" [] [Tag "title" [] [Text "Joe's Diner - Old Saybrook"]];
        Tag "body" []
          [ Tag "h1" [] [Text "  Joe's Diner "];
            Tag "div" []
              [ Text "Open daily from 6 to 2  ";
                Tag "span" [] [Text " 12 Main Street, Old Saybrook, CT 06475 "];
                Tag "span" [] [Text "Mail: PO Box 9, 7 Elm Rd, CT 06498"] ];
            Tag "p" [] [Text "Phone: 860-555-0142 or (860) 555 0199"];
            Tag "p" [] [Text "Write to joe@joesdiner.example.com today"];
            Tag "a" [("href", "https://www.facebook.com/joesdiner")] [Text "FB"];
            Tag "a" [("href", "https://joesdiner.example.com/")] [Text "Site"]
          ] ] ].

(** A small directory: a chamber root page with one category, whose page
    lists three links, one of them to a business page. *)
Definition root_url : string := "https://business.goschamber.com/list".
Definition dining_url : string :=
  "https://business.goschamber.com/list/ql/dining-12".
Definition joes_url : string :=
  "https://business.goschamber.com/list/member/joes-diner-7".

Definition page_root : soup :=
  [ Tag "ul" []
      [ Tag "li" [] [Tag "a" [("href", "/list/ql/dining-12")] [Text " Dining "]];
        Tag "li" [] [Tag "a" [("href", "/events")] [Text "Events"]] ] ].

Definition page_dining : soup :=
  [ Tag "div" []
      [ Tag "a" [("href", "/list")] [Text "All categories"];
        Tag "a" [("href", "/list/member/joes-diner-7")] [Text "Joe's Diner"];
        Tag "a" [("href", "https://www.facebook.com/goschamber")] [Text "FB"] ] ].

Definition page_two_members : soup :=
  [ Tag "a" [("href", "//[x/list/member/1")] [Text "One"];
    Tag "a" [("href", "/list/member/2")] [Text "Two"] ].

Definition page_empty_root : soup :=
  [ Tag "p" [] [Text "No categories yet"];
    Tag "a" [("href", "/contact")] [Text "Contact"] ].

(** [urljoin] on the targets used here: absolute targets are kept, paths
    are put on the host, and a target whose host part opens a bracket that
    is not closed raises [ValueError] (Invalid IPv6 URL). *)
Definition sample_urljoin (base href : string) : option string :=
  if startswith "//[" href then None
  else if startswith "http" href then Some href
  else Some ("https://business.goschamber.com" ++ href).

Definition sample_fetch (first : soup) (n : nat) (url : string)
  : option Soup.soup :=
  match n with
  | 0 => Some first
  | _ =>
      if (url =? dining_url)%string then Some page_dining
      else if (url =? joes_url)%string then Some page_contact
      else None
  end.

Definition sample_world (first : soup) : world :=
  {| urljoin := sample_urljoin;
     fetch := sample_fetch first;
     today := fun _ => "2024-05-17";
     can_open := fun f => negb (f =? "")%string |}.

Definition page_about : soup :=
  [ Tag "div" []
      [ Text "About Us ";
        Tag "b" [] [Text " Family owned "];
        Text " since 1962. " ] ].

Definition page_blank_h1 : soup :=
  [ Tag "head" [] [Tag "title" [] [Text "Joe's Diner | Chamber"]];
    Tag "body" [] [Tag "h1" [] [Text "  "]; Tag "p" [] [Text "Welcome"]] ].

Definition no_files : filesystem := fun _ => None.

(** Pages with strings that are no text of the page: a script, a style
    sheet, a comment. *)
Definition page_script_phone : soup :=
  [ Tag "script" [] [Text "var tel = '860-555-0142'; var to = 'joe@example.com';"];
    Tag "p" [] [Text "Call us"] ].

Definition page_style_address : soup :=
  [ Tag "style" [] [Text "12 Main St, Old Saybrook, CT 06475"];
    Tag "p" [] [Text " 7 Elm Rd, Clinton, CT 06413 "] ].

Definition page_about_script : soup :=
  [ Tag "div" []
      [ Text "About Us"; Tag "script" [] [Text "var t = 1;"];
        Text "Family owned" ] ].

Definition page_about_comment : soup :=
  [ Tag "div" [] [Typed Comment " about us "; Text " Family owned "];
    Tag "p" [] [Text "About Us: see above"] ].


(** ** Facts on the string primitives *)

Module StrFacts.
Import Str.

Lemma append_nil_r (s : string) : s ++ "" = s.
Proof. induction s as [|c s IH]; simpl; [reflexivity | now rewrite IH]. Qed.

Lemma append_assoc (a b c : string) : (a ++ b) ++ c = a ++ (b ++ c).
Proof. induction a as [|x a IH]; simpl; [reflexivity | now rewrite IH]. Qed.

Lemma length_append (a b : string) :
  String.length (a ++ b) = String.length a + String.length b.
Proof. induction a as [|x a IH]; simpl; [reflexivity | now rewrite IH]. Qed.

Lemma length_take (n : nat) (s : string) :
  String.length (take n s) = Nat.min n (String.length s).
Proof.
  revert s; induction n as [|n IH]; intros [|c s]; simpl; try reflexivity.
  now rewrite IH.
Qed.

Lemma take_drop (n : nat) (s : string) : take n s ++ drop n s = s.
Proof.
  revert s; induction n as [|n IH]; intros [|c s]; simpl; try reflexivity.
  now rewrite IH.
Qed.

Lemma take_app_length (a b : string) : take (String.length a) (a ++ b) = a.
Proof. induction a as [|x a IH]; simpl; [now destruct b | now rewrite IH]. Qed.

Lemma drop_app_length (a b : string) : drop (String.length a) (a ++ b) = b.
Proof. induction a as [|x a IH]; simpl; [now destruct b | exact IH]. Qed.

Lemma startswith_iff (x s : string) :
  startswith x s = true <-> exists t, s = x ++ t.
Proof.
  revert s; induction x as [|a x IH]; intros s; simpl.
  - split; [intros _; now exists s | reflexivity].
  - destruct s as [|b s].
    + split; [discriminate | intros [t Ht]; discriminate].
    + rewrite andb_true_iff, Ascii.eqb_eq, IH. split.
      * intros [-> [t ->]]. now exists t.
      * intros [t Ht]. injection Ht as -> ->. split; [reflexivity | now exists t].
Qed.

Lemma contains_iff (x s : string) :
  contains x s = true <-> exists pre post, s = pre ++ x ++ post.
Proof.
  induction s as [|c s IH]; simpl; rewrite orb_true_iff, startswith_iff.
  - split.
    + intros [[t Ht] | H]; [| discriminate]. now exists "", t.
    + intros [[|a pre] [post H]]; [left; now exists post | discriminate].
  - rewrite IH. split.
    + intros [[t Ht] | [pre [post ->]]]; [now exists "", t |].
      now exists (String c pre), post.
    + intros [[|a pre] [post H]]; [left; now exists post |].
      right. simpl in H. injection H as _ ->. now exists pre, post.
Qed.

Lemma lower_append (a b : string) : lower (a ++ b) = lower a ++ lower b.
Proof. induction a as [|x a IH]; simpl; [reflexivity | now rewrite IH]. Qed.

(** A needle left unchanged by [lower] that occurs in [s] occurs in
    [lower s] too. *)
Lemma contains_lower (x s : string) :
  lower x = x -> contains x s = true -> contains x (lower s) = true.
Proof.
  intros Hx. rewrite !contains_iff. intros [pre [post ->]].
  exists (lower pre), (lower post). now rewrite !lower_append, Hx.
Qed.

Lemma nonempty_iff (s : string) : nonempty s = true <-> s <> "".
Proof. destruct s; simpl; split; congruence. Qed.


Lemma take_add (j n : nat) (s : string) :
  take (j + n) s = take j s ++ take n (drop j s).
Proof.
  revert s; induction j as [|j IH]; intros s; simpl.
  - now destruct s.
  - destruct s as [|c s]; simpl; [now destruct n | now rewrite IH].
Qed.

Lemma length_drop (j : nat) (s : string) :
  String.length (drop j s) = String.length s - j.
Proof.
  revert s; induction j as [|j IH]; intros [|c s]; simpl; auto.
Qed.

End StrFacts.

(** ** Correctness of the matcher *)

Module ReFacts.
Import Str Re StrFacts.

Lemma within_le (cap : option nat) (m j : nat) :
  within cap m -> j <= m -> within cap j.
Proof. destruct cap; simpl; lia. Qed.

Lemma span_le (c : ascii -> bool) (s : string) :
  forall cap, span c cap s <= String.length s.
Proof.
  induction s as [|a s IH]; intros cap; simpl; [lia |].
  destruct (c a); [| lia].
  destruct cap as [[|h]|]; [lia | |]; specialize (IH (Some h)) + specialize (IH None); lia.
Qed.

Lemma span_within (c : ascii -> bool) (s : string) :
  forall cap, within cap (span c cap s).
Proof.
  induction s as [|a s IH]; intros [[|h]|]; simpl; try lia; try exact I;
    destruct (c a); simpl; try lia.
  specialize (IH (Some h)); simpl in IH; lia.
Qed.

Lemma span_all (c : ascii -> bool) (s : string) :
  forall cap k, k <= span c cap s -> all_in c (take k s) = true.
Proof.
  induction s as [|a s IH]; intros cap k Hk; simpl in Hk.
  - now destruct k.
  - destruct k as [|k]; [reflexivity |].
    destruct (c a) eqn:Ha; [| lia]. simpl. rewrite Ha. simpl.
    destruct cap as [[|h]|]; [lia | |]; eapply IH; apply le_S_n, Hk.
Qed.

Lemma span_max (c : ascii -> bool) (u t : string) :
  forall cap, all_in c u = true -> within cap (String.length u) ->
  String.length u <= span c cap (u ++ t).
Proof.
  induction u as [|a u IH]; intros cap Hall Hcap; simpl; [lia |].
  simpl in Hall. apply andb_true_iff in Hall as [Ha Hu]. rewrite Ha.
  destruct cap as [[|h]|]; simpl in Hcap; [lia | |].
  - apply le_n_S, IH; [exact Hu | simpl; lia].
  - apply le_n_S, IH; [exact Hu | exact I].
Qed.

Lemma try_down_sound (k : nat -> option nat) (lo d r : nat) :
  try_down k lo d = Some r ->
  exists j n, lo <= j <= lo + d /\ k j = Some n /\ r = j + n.
Proof.
  induction d as [|d IH]; simpl; destruct (k (lo + _)) as [n|] eqn:Hk.
  - intros [= <-]. exists (lo + 0), n. repeat split; try lia; assumption.
  - discriminate.
  - intros [= <-]. exists (lo + S d), n. repeat split; try lia; assumption.
  - intros H. destruct (IH H) as (j & n & Hj & Hkj & ->).
    exists j, n. repeat split; try lia; assumption.
Qed.

Lemma try_down_complete (k : nat -> option nat) (lo d j : nat) :
  lo <= j <= lo + d -> k j <> None -> try_down k lo d <> None.
Proof.
  induction d as [|d IH]; simpl; intros Hj Hk;
    destruct (k (lo + _)) as [n|] eqn:Hkd; try discriminate.
  - replace j with (lo + 0) in Hk by lia. congruence.
  - destruct (Nat.eq_dec j (lo + S d)) as [-> | Hne]; [congruence |].
    apply IH; [lia | exact Hk].
Qed.

(** Whatever the matcher returns is a match. *)
Lemma match_here_sound (p : pattern) :
  forall s n, match_here p s = Some n ->
  n <= String.length s /\ matches p (take n s).
Proof.
  induction p as [|a p IH]; intros s n; simpl.
  - intros [= <-]. split; [lia |]. destruct s; constructor.
  - destruct (_ <? _) eqn:Hlo; [discriminate |].
    apply Nat.ltb_ge in Hlo. intros H.
    apply try_down_sound in H as (j & n' & Hj & Hk & ->).
    apply IH in Hk as [Hn' Hm].
    pose proof (span_le (cls a) s (hi a)) as Hle.
    rewrite length_drop in Hn'. split; [lia |].
    rewrite take_add.
    assert (Hlen : String.length (take j s) = j)
      by (rewrite length_take; lia).
    constructor; try rewrite Hlen; try lia; try exact Hm.
    + apply span_all with (cap := hi a). lia.
    + apply within_le with (m := span (cls a) (hi a) s);
        [apply span_within | lia].
Qed.

(** Wherever a match starts, the matcher finds one. *)
Lemma match_here_complete (p : pattern) (w : string) :
  matches p w -> forall t, match_here p (w ++ t) <> None.
Proof.
  induction 1 as [|a p u v Hall Hlo Hhi Hm IH]; intros t; simpl.
  - discriminate.
  - rewrite append_assoc.
    pose proof (span_max (cls a) u (v ++ t) (hi a) Hall Hhi) as Hmax.
    destruct (_ <? _) eqn:Hlt; [apply Nat.ltb_lt in Hlt; lia |].
    apply try_down_complete with (j := String.length u); [lia |].
    rewrite drop_app_length. apply IH.
Qed.

Lemma search_from_some (p : pattern) (s : string) :
  forall i j m, search_from p i s = Some (j, m) ->
  exists pre post,
    s = pre ++ m ++ post /\ j = i + String.length pre /\ matches p m /\
    forall pre' w post',
      s = pre' ++ w ++ post' -> matches p w ->
      String.length pre <= String.length pre'.
Proof.
  induction s as [|c s IH]; intros i j m; simpl;
    destruct (match_here p _) as [n|] eqn:Hn; try discriminate.
  - intros [= <- <-]. apply match_here_sound in Hn as [_ Hn].
    exists "", (drop n ""). rewrite take_drop.
    repeat split; simpl; try lia; assumption.
  - intros [= <- <-]. apply match_here_sound in Hn as [_ Hn].
    exists "", (drop n (String c s)). rewrite take_drop.
    repeat split; simpl; try lia; assumption.
  - intros H. apply IH in H as (pre & post & -> & -> & Hm & Hmin).
    exists (String c pre), post. repeat split; simpl; try lia; try assumption.
    intros [|c' pre'] w post' Heq Hw.
    + exfalso. simpl in Heq.
      apply (match_here_complete p w Hw post'). now rewrite <- Heq.
    + simpl in Heq. injection Heq as _ Heq. simpl.
      apply le_n_S, (Hmin pre' w post' Heq Hw).
Qed.

Lemma search_from_none (p : pattern) (s : string) :
  forall i, search_from p i s = None ->
  forall pre w post, s = pre ++ w ++ post -> ~ matches p w.
Proof.
  induction s as [|c s IH]; intros i; simpl;
    destruct (match_here p _) as [n|] eqn:Hn; try discriminate.
  - intros _ [|a pre] w post Heq Hw; [| discriminate].
    simpl in Heq. apply (match_here_complete p w Hw post). now rewrite <- Heq.
  - intros H [|a pre] w post Heq Hw.
    + simpl in Heq.
      apply (match_here_complete p w Hw post). now rewrite <- Heq.
    + simpl in Heq. injection Heq as _ Heq. exact (IH _ H pre w post Heq Hw).
Qed.

(** [re.search] returns the match at the leftmost position where the
    pattern matches at all. *)
Lemma search_some (p : pattern) (s : string) (i : nat) (m : string) :
  search p s = Some (i, m) ->
  occurs_at i m s /\ matches p m /\
  forall j w, occurs_at j w s -> matches p w -> i <= j.
Proof.
  intros H. apply search_from_some in H as (pre & post & Hs & Hi & Hm & Hmin).
  simpl in Hi. repeat split.
  - now exists pre, post.
  - exact Hm.
  - intros j w (pre' & post' & Hs' & <-) Hw. rewrite Hi.
    exact (Hmin pre' w post' Hs' Hw).
Qed.

Lemma search_none (p : pattern) (s : string) :
  search p s = None -> forall j w, occurs_at j w s -> ~ matches p w.
Proof.
  intros H j w (pre & post & Hs & _). exact (search_from_none p s 0 H pre w post Hs).
Qed.

Lemma found_iff (p : pattern) (s : string) :
  found p s = true <-> exists j w, occurs_at j w s /\ matches p w.
Proof.
  unfold found. destruct (search p s) as [[i m]|] eqn:H; split.
  - intros _. apply search_some in H as (Ho & Hm & _). now exists i, m.
  - reflexivity.
  - discriminate.
  - intros (j & w & Ho & Hw). exfalso. exact (search_none p s H j w Ho Hw).
Qed.

End ReFacts.

(** ** The website extractor *)

Import StrFacts ReFacts.

Lemma website_loop_cons (href : string) (rest : list string) :
  website_loop (href :: rest) =
  if qualifies href then href else website_loop rest.
Proof.
  unfold qualifies; cbn [website_loop].
  destruct (any_in platform_denylist (lower href)); cbn [negb andb];
    [reflexivity |].
  destruct (startswith "http" href); cbn [negb andb]; [| reflexivity].
  now destruct (any_in chamber_denylist href).
Qed.

Lemma website_loop_none (hrefs : list string) :
  (forall h, In h hrefs -> qualifies h = false) -> website_loop hrefs = "".
Proof.
  induction hrefs as [|h rest IH]; intros Hall; [reflexivity |].
  rewrite website_loop_cons, (Hall h (or_introl eq_refl)).
  apply IH. intros x Hx. apply Hall. now right.
Qed.

Lemma website_loop_first (pre post : list string) (h : string) :
  qualifies h = true ->
  (forall x, In x pre -> qualifies x = false) ->
  website_loop (pre ++ h :: post)%list = h.
Proof.
  intros Hh. induction pre as [|x pre IH]; intros Hpre; simpl app.
  - now rewrite website_loop_cons, Hh.
  - rewrite website_loop_cons, (Hpre x (or_introl eq_refl)).
    apply IH. intros y Hy. apply Hpre. now right.
Qed.

Lemma website_loop_result (hrefs : list string) :
  website_loop hrefs = "" \/
  (In (website_loop hrefs) hrefs /\ qualifies (website_loop hrefs) = true).
Proof.
  induction hrefs as [|h rest IH]; [now left |].
  rewrite website_loop_cons. destruct (qualifies h) eqn:Hq.
  - right. split; [now left | exact Hq].
  - destruct IH as [IH | [Hin Hq']]; [now left | right].
    split; [now right | exact Hq'].
Qed.







(** The chamber root domains are compared as written: the same domain in
    upper case is returned. *)
Example chamber_domain_upper_case :
  extract_website [Tag "a" [("href", "https://WWW.GOSCHAMBER.COM/")] []]
  = "https://WWW.GOSCHAMBER.COM/".
Proof. reflexivity. Qed.

(** C2.  The website extractor walks the page's links in document order.
    If none passes the denylist-and-scheme filter the result is empty; a
    link that passes it and is preceded by none that does is returned,
    whether it is the only qualifying link or the first of several. *)
Theorem extract_website_first_qualifying (soup : soup) :
  let hrefs := map fst (find_all_a (fun _ => true) soup) in
  ((forall h, In h hrefs -> qualifies h = false) ->
   extract_website soup = "") /\
  (forall pre h post,
     hrefs = (pre ++ h :: post)%list ->
     qualifies h = true ->
     (forall x, In x (pre ++ post) -> qualifies x = false) ->
     extract_website soup = h) /\
  (forall pre h post,
     hrefs = (pre ++ h :: post)%list ->
     qualifies h = true ->
     (forall x, In x pre -> qualifies x = false) ->
     extract_website soup = h).
Proof.
  intros hrefs. unfold extract_website. fold hrefs. repeat split.
  - apply website_loop_none.
  - intros pre h post -> Hh Hothers. apply website_loop_first; [exact Hh |].
    intros x Hx. apply Hothers, in_or_app. now left.
  - intros pre h post -> Hh Hpre. now apply website_loop_first.
Qed.

Lemma extract_website_first_qualifying_witness :
  extract_website page_c2 = "https://example-biz.com".
Proof.
  apply (proj2 (proj2 (extract_website_first_qualifying page_c2))
           ["https://facebook.com/x"; "tel:123"] "https://example-biz.com"
           ["https://second.example.org"]).
  - reflexivity.
  - reflexivity.
  - intros x [<- | [<- | []]]; reflexivity.
Defined.

(** ** The phone, email and address extractors *)

Lemma within_b_iff (cap : option nat) (n : nat) :
  within_b cap n = true <-> within cap n.
Proof.
  destruct cap as [h|]; simpl; [apply Nat.leb_le | now split].
Qed.

(** [fullmatch] decides [matches]. *)
Lemma fullmatch_iff (p : pattern) :
  forall w, fullmatch p w = true <-> matches p w.
Proof.
  induction p as [|a p IH]; intros w; cbn [fullmatch].
  - rewrite String.eqb_eq. split; [intros ->; constructor | now inversion 1].
  - rewrite existsb_exists. split.
    + intros (j & Hj & Hc). apply in_seq in Hj.
      repeat (apply andb_true_iff in Hc as [Hc ?]).
      rewrite <- (take_drop j w).
      assert (Hlen : String.length (take j w) = j)
        by (rewrite length_take; lia).
      constructor; try rewrite Hlen.
      * assumption.
      * now apply Nat.leb_le.
      * now apply within_b_iff.
      * now apply IH.
    + inversion 1 as [|a' p' u v Hall Hlo Hhi Hm]; subst.
      exists (String.length u). split.
      * apply in_seq. rewrite length_append. lia.
      * rewrite take_app_length, drop_app_length, Hall.
        apply Nat.leb_le in Hlo. apply within_b_iff in Hhi.
        apply IH in Hm. now rewrite Hlo, Hhi, Hm.
Qed.

Lemma no_match_iff (p : pattern) (s : string) :
  no_match p s <-> ~ has_match p s.
Proof.
  unfold no_match, has_match. split.
  - intros H (j & w & Ho & Hm). exact (H j w Ho Hm).
  - intros H j w Ho Hm. apply H. now exists j, w.
Qed.

Lemma found_has_match (p : pattern) (s : string) :
  found p s = true <-> has_match p s.
Proof. apply found_iff. Qed.

Lemma found_no_match (p : pattern) (s : string) :
  found p s = false <-> no_match p s.
Proof.
  rewrite no_match_iff, <- found_has_match. now destruct (found p s).
Qed.

(** [m.group(0) if m else ""] is the first match, or empty when nothing
    matches. *)
Lemma group0_or_empty_spec (p : pattern) (s : string) :
  first_match p s (group0_or_empty p s) \/
  no_match p s /\ group0_or_empty p s = "".
Proof.
  unfold group0_or_empty. destruct (search p s) as [[i m]|] eqn:H.
  - left. exists i. now apply search_some.
  - right. split; [| reflexivity]. intros j w. now apply search_none.
Qed.

Lemma group0_or_empty_no_match (p : pattern) (s : string) :
  no_match p s -> group0_or_empty p s = "".
Proof.
  intros Hno. destruct (group0_or_empty_spec p s) as [(i & Ho & Hm & _) | [_ H]].
  - destruct (Hno i _ Ho Hm).
  - exact H.
Qed.

(** C6 (as amended).  The phone extractor returns the first substring of
    the page's full visible text ([soup.get_text()]: ordinary text and CDATA
    sections, without comments and without the strings of script, style and
    template elements) of the shape: an optional opening parenthesis, three
    digits, an optional closing parenthesis, an optional separator, three
    digits, an optional separator, four digits, a separator being one
    whitespace character, a hyphen or a dot.  The first three digits are
    required and each parenthesis is optional on its own.  The email
    extractor returns the first substring of the same text of the shape
    local part, [@], domain, dot, at least two letters.  Each returns the
    empty string when nothing matches; both are total. *)
Theorem extract_phone_email_first_match (soup : soup) :
  let text := get_text soup in
  (first_match phone_pattern text (extract_phone soup) \/
   no_match phone_pattern text /\ extract_phone soup = "") /\
  (first_match email_pattern text (extract_email soup) \/
   no_match email_pattern text /\ extract_email soup = "") /\
  (no_match phone_pattern text -> extract_phone soup = "") /\
  (no_match email_pattern text -> extract_email soup = "").
Proof.
  intros text. unfold extract_phone, extract_email. fold text.
  repeat split;
    auto using group0_or_empty_spec, group0_or_empty_no_match.
Qed.

Lemma extract_phone_email_first_match_witness :
  extract_phone page_contact = "860-555-0142" /\
  extract_email page_contact = "joe@joesdiner.example.com" /\
  extract_phone page_c2 = "".
Proof.
  split; [reflexivity | split; [reflexivity |]].
  apply (proj1 (proj2 (proj2 (extract_phone_email_first_match page_c2)))).
  apply found_no_match. reflexivity.
Defined.

(** C6 as stated fails: the text returned for this page opens a parenthesis
    that is never closed, so it is not a parenthesized group followed by the
    two digit groups, nor the digit groups alone. *)
Lemma phone_unbalanced_parenthesis :
  extract_phone page_c6 = "(203 555-1234" /\
  ~ claimed_phone_shape (extract_phone page_c6).
Proof.
  split; [reflexivity |].
  intros (p & Hp & Hm). apply fullmatch_iff in Hm.
  simpl in Hp. destruct Hp as [<- | [<- | [<- | []]]]; discriminate Hm.
Qed.

(** The first three digits are required: a seven-digit number alone is not
    returned. *)
Example phone_seven_digits :
  extract_phone [Tag "p" [] [Text "Call 555-1234 today"]] = "".
Proof. reflexivity. Qed.

(** The text of a script is no text of the page: a number or an address
    that stands only there is not returned. *)
Example script_text_not_scanned :
  extract_phone page_script_phone = "" /\
  extract_email page_script_phone = "".
Proof. split; reflexivity. Qed.

Lemma address_loop_none (fragments : list string) :
  (forall f, In f fragments -> no_match address_pattern f) ->
  address_loop fragments = "".
Proof.
  induction fragments as [|f rest IH]; intros Hall; [reflexivity |].
  cbn [address_loop].
  rewrite (proj2 (found_no_match _ _) (Hall f (or_introl eq_refl))).
  apply IH. intros x Hx. apply Hall. now right.
Qed.

Lemma address_loop_first (pre post : list string) (f : string) :
  has_match address_pattern f ->
  (forall x, In x pre -> no_match address_pattern x) ->
  address_loop (pre ++ f :: post)%list = f.
Proof.
  intros Hf. induction pre as [|x pre IH]; intros Hpre; cbn [app address_loop].
  - now rewrite (proj2 (found_has_match _ _) Hf).
  - rewrite (proj2 (found_no_match _ _) (Hpre x (or_introl eq_refl))).
    apply IH. intros y Hy. apply Hpre. now right.
Qed.

Lemma address_loop_result (fragments : list string) :
  address_loop fragments = "" \/
  In (address_loop fragments) fragments /\
  has_match address_pattern (address_loop fragments).
Proof.
  induction fragments as [|f rest IH]; [now left |]. cbn [address_loop].
  destruct (found address_pattern f) eqn:Hf.
  - right. split; [now left | now apply found_has_match].
  - destruct IH as [IH | [Hin Hm]]; [now left | right].
    split; [now right | exact Hm].
Qed.

(** C7.  The address extractor walks the page's visible text fragments
    ([soup.stripped_strings]: the strings that count as text, stripped, the
    empty ones dropped; not comments, nor the strings of script, style and
    template elements) in document order and returns the first one in
    which the shape digits, whitespace, word characters, anything, comma,
    [CT], five digits is found (in the sense of [re.search]); it returns the
    empty string when no fragment matches. *)
Theorem extract_address_first_fragment (soup : soup) :
  let fragments := stripped_strings soup in
  ((forall f, In f fragments -> no_match address_pattern f) ->
   extract_address soup = "") /\
  (forall pre f post,
     fragments = (pre ++ f :: post)%list ->
     has_match address_pattern f ->
     (forall x, In x pre -> no_match address_pattern x) ->
     extract_address soup = f) /\
  (extract_address soup = "" \/
   In (extract_address soup) fragments /\
   has_match address_pattern (extract_address soup)).
Proof.
  intros fragments. unfold extract_address. fold fragments. repeat split.
  - apply address_loop_none.
  - intros pre f post -> Hf Hpre. now apply address_loop_first.
  - apply address_loop_result.
Qed.

Lemma extract_address_first_fragment_witness :
  extract_address page_contact = "12 Main Street, Old Saybrook, CT 06475".
Proof.
  apply (proj1 (proj2 (extract_address_first_fragment page_contact))
           ["Joe's Diner - Old Saybrook"; "Joe's Diner";
            "Open daily from 6 to 2"]
           "12 Main Street, Old Saybrook, CT 06475"
           ["Mail: PO Box 9, 7 Elm Rd, CT 06498";
            "Phone: 860-555-0142 or (860) 555 0199";
            "Write to joe@joesdiner.example.com today"; "FB"; "Site"]).
  - reflexivity.
  - apply found_has_match. reflexivity.
  - intros x [<- | [<- | [<- | []]]]; apply found_no_match; reflexivity.
Defined.

(** The text of a style sheet is no fragment of the page: the address is
    taken from the first fragment outside of it. *)
Example style_text_no_fragment :
  extract_address page_style_address = "7 Elm Rd, Clinton, CT 06413".
Proof. reflexivity. Qed.

(** ** Queries on parsed pages *)

Lemma with_href_filter (p : string -> bool) (l : list node) :
  with_href p l = filter (fun x => p (fst x)) (with_href (fun _ => true) l).
Proof.
  induction l as [|n l IH]; [reflexivity |]. cbn [with_href].
  destruct (attr "href" n) as [h|]; [| exact IH].
  cbn [filter fst]. destruct (p h); now rewrite IH.
Qed.

(** [find_all('a', href=p)] keeps, in order, the links whose target
    satisfies [p], and only those. *)
Lemma find_all_a_filter (p : string -> bool) (soup : soup) :
  find_all_a p soup =
  filter (fun x => p (fst x)) (find_all_a (fun _ => true) soup).
Proof. apply with_href_filter. Qed.

Lemma find_all_a_matching (p : string -> bool) (soup : soup) (h : string)
  (n : node) :
  In (h, n) (find_all_a p soup) <->
  In (h, n) (find_all_a (fun _ => true) soup) /\ p h = true.
Proof. rewrite find_all_a_filter. apply filter_In. Qed.

(** ** Effects of the handlers on the scraper's state *)

Section Handlers.

Variable W : world.

Lemma scrape_business_businesses (u c k : string) (st : scraper) :
  businesses (scrape_business W u c k st) =
  match fetch W (requests st) u with
  | None => businesses st
  | Some soup =>
      (businesses st
         ++ [business_data soup u c k (today W (S (requests st)))])%list
  end.
Proof.
  unfold scrape_business. cbn [enter requests].
  now destruct (fetch W (requests st) u).
Qed.

Lemma scrape_business_calls (u c k : string) (st : scraper) :
  calls (scrape_business W u c k st) = (calls st ++ [CallBusiness u c k])%list.
Proof.
  unfold scrape_business. cbn [enter requests].
  now destruct (fetch W (requests st) u).
Qed.

Lemma business_loop_calls (cu c k : string) (links : list (string * node)) :
  forall st,
    calls (business_loop W cu c k links st) =
    (calls st
       ++ map (fun l => CallBusiness (fst l) c k) (resolved W cu links))%list.
Proof.
  induction links as [|[href link] rest IH]; intros st;
    cbn [business_loop resolved].
  - now rewrite app_nil_r.
  - destruct (urljoin W cu href) as [u|]; [| now rewrite app_nil_r].
    rewrite IH, scrape_business_calls, <- app_assoc. reflexivity.
Qed.

Lemma scrape_category_calls (cu c k : string) (st : scraper) :
  calls (scrape_category W cu c k st) =
  (calls st ++ CallCategory cu c k ::
     match fetch W (requests st) cu with
     | None => []
     | Some soup =>
         map (fun l => CallBusiness (fst l) c k)
           (resolved W cu (find_all_a (found member_pattern) soup))
     end)%list.
Proof.
  unfold scrape_category. cbn [enter requests].
  destruct (fetch W (requests st) cu) as [soup|].
  - rewrite business_loop_calls. cbn [sent enter calls].
    now rewrite <- app_assoc.
  - reflexivity.
Qed.

Lemma filter_business_calls (c k : string) (l : list (string * node)) :
  filter is_category_call (map (fun x => CallBusiness (fst x) c k) l) = [].
Proof. induction l as [|x l IH]; [reflexivity | exact IH]. Qed.

Lemma filter_business_calls_all (c k : string) (l : list (string * node)) :
  filter is_business_call (map (fun x => CallBusiness (fst x) c k) l)
  = map (fun x => CallBusiness (fst x) c k) l.
Proof.
  induction l as [|x l IH]; [reflexivity |]. cbn. now rewrite IH.
Qed.

Lemma scrape_category_category_calls (cu c k : string) (st : scraper) :
  filter is_category_call (calls (scrape_category W cu c k st)) =
  (filter is_category_call (calls st) ++ [CallCategory cu c k])%list.
Proof.
  rewrite scrape_category_calls, filter_app. f_equal. cbn [filter is_category_call].
  f_equal. destruct (fetch W (requests st) cu); [| reflexivity].
  apply filter_business_calls.
Qed.

Lemma category_loop_calls (base c : string) (links : list (string * node)) :
  forall st,
    filter is_category_call (calls (category_loop W base c links st)) =
    (filter is_category_call (calls st)
       ++ map (fun l =>
                 CallCategory (fst l) c (strip (get_text (children (snd l)))))
            (resolved W base links))%list.
Proof.
  induction links as [|[href link] rest IH]; intros st;
    cbn [category_loop resolved].
  - now rewrite app_nil_r.
  - destruct (urljoin W base href) as [u|]; [| now rewrite app_nil_r].
    rewrite IH, scrape_category_category_calls, <- app_assoc. reflexivity.
Qed.

Lemma resolved_length (base : string) (links : list (string * node)) :
  resolvable W base links ->
  List.length (resolved W base links) = List.length links.
Proof.
  induction links as [|[href link] rest IH]; intros Hres; [reflexivity |].
  cbn [resolved]. destruct (urljoin W base href) as [u|] eqn:Hu.
  - cbn [List.length]. f_equal. apply IH.
    intros h l Hin. apply (Hres h l). now right.
  - exfalso. apply (Hres href link); [now left | exact Hu].
Qed.

(** Each resolved entry is a link of the page, in order, with its target
    resolved against the page's URL. *)
Lemma resolved_links (base : string) (links : list (string * node)) :
  resolvable W base links ->
  Forall2 (fun l r => urljoin W base (fst l) = Some (fst r) /\ snd l = snd r)
    links (resolved W base links).
Proof.
  induction links as [|[href link] rest IH]; intros Hres; [constructor |].
  cbn [resolved]. destruct (urljoin W base href) as [u|] eqn:Hu.
  - constructor; [now split |]. apply IH.
    intros h l Hin. apply (Hres h l). now right.
  - exfalso. apply (Hres href link); [now left | exact Hu].
Qed.

(** In general the resolved entries are those of the links that come
    before the first one whose target does not resolve. *)
Lemma resolved_prefix (base : string) (links : list (string * node)) :
  exists done rest,
    links = (done ++ rest)%list /\
    Forall2 (fun l r => urljoin W base (fst l) = Some (fst r) /\ snd l = snd r)
      done (resolved W base links) /\
    (rest = [] \/
     exists h n rest', rest = (h, n) :: rest' /\ urljoin W base h = None).
Proof.
  induction links as [|[href link] tl IH]; cbn [resolved].
  - exists [], []. repeat split; [constructor | now left].
  - destruct (urljoin W base href) as [u|] eqn:Hu.
    + destruct IH as (done & rest & -> & Hall & Hrest).
      exists ((href, link) :: done), rest.
      repeat split; [constructor; [now split | exact Hall] | exact Hrest].
    + exists [], ((href, link) :: tl).
      repeat split; [constructor | right; now exists href, link, tl].
Qed.

(** *** Every record of the collection comes from [business_data] *)

Variable P : business -> Prop.
Hypothesis P_data : forall soup u c k d, P (business_data soup u c k d).

Lemma scrape_business_keeps (u c k : string) (st : scraper) :
  Forall P (businesses st) ->
  Forall P (businesses (scrape_business W u c k st)).
Proof.
  intros H. rewrite scrape_business_businesses.
  destruct (fetch W (requests st) u); [| exact H].
  apply Forall_app. split; [exact H |]. constructor; [apply P_data | constructor].
Qed.

Lemma business_loop_keeps (cu c k : string) (links : list (string * node)) :
  forall st, Forall P (businesses st) ->
  Forall P (businesses (business_loop W cu c k links st)).
Proof.
  induction links as [|[href link] rest IH]; intros st H; cbn [business_loop];
    [exact H |].
  destruct (urljoin W cu href); [| exact H].
  apply IH, scrape_business_keeps, H.
Qed.

Lemma scrape_category_keeps (cu c k : string) (st : scraper) :
  Forall P (businesses st) ->
  Forall P (businesses (scrape_category W cu c k st)).
Proof.
  intros H. unfold scrape_category. cbn [enter requests].
  destruct (fetch W (requests st) cu); [| exact H].
  apply business_loop_keeps. exact H.
Qed.

Lemma category_loop_keeps (base c : string) (links : list (string * node)) :
  forall st, Forall P (businesses st) ->
  Forall P (businesses (category_loop W base c links st)).
Proof.
  induction links as [|[href link] rest IH]; intros st H; cbn [category_loop];
    [exact H |].
  destruct (urljoin W base href); [| exact H].
  apply IH, scrape_category_keeps, H.
Qed.

Lemma scrape_chamber_list_keeps (base c : string) (st : scraper) :
  Forall P (businesses st) ->
  Forall P (businesses (scrape_chamber_list W base c st)).
Proof.
  intros H. unfold scrape_chamber_list.
  destruct (fetch W (requests st) base); [| exact H].
  apply category_loop_keeps. exact H.
Qed.

Lemma scrape_chambers_keeps (chambers : list (string * string)) :
  forall st, Forall P (businesses st) ->
  Forall P (businesses (scrape_chambers W chambers st)).
Proof.
  induction chambers as [|[name url] rest IH]; intros st H;
    cbn [scrape_chambers]; [exact H |].
  apply IH, scrape_chamber_list_keeps, H.
Qed.

End Handlers.

(** ** Literal patterns *)

Lemma one_char (c : ascii -> bool) (u : string) :
  all_in c u = true -> 1 <= String.length u -> within (Some 1) (String.length u) ->
  exists a, u = String a "" /\ c a = true.
Proof.
  destruct u as [|a [|b u]]; simpl; intros Hall Hlo Hhi; try lia.
  exists a. split; [reflexivity |]. now apply andb_true_iff in Hall as [Ha _].
Qed.

Lemma matches_literal (x : string) :
  forall w, matches (literal x) w <-> w = x.
Proof.
  induction x as [|a x IH]; intros w; cbn [literal]; split.
  - now inversion 1.
  - intros ->. constructor.
  - inversion 1 as [|a' p' u v Hall Hlo Hhi Hm]; subst.
    destruct (one_char _ u Hall Hlo Hhi) as (b & -> & Hb).
    apply Ascii.eqb_eq in Hb as <-. apply IH in Hm as ->. reflexivity.
  - intros ->. change (String a x) with (String a "" ++ x).
    constructor; simpl; try lia; [| now apply IH].
    unfold chr. now rewrite Ascii.eqb_refl.
Qed.

Lemma matches_literal_i (x : string) :
  forall w, matches (literal_i x) w <-> lower w = lower x.
Proof.
  induction x as [|a x IH]; intros w; cbn [literal_i]; split.
  - now inversion 1.
  - destruct w; [constructor | discriminate].
  - inversion 1 as [|a' p' u v Hall Hlo Hhi Hm]; subst.
    destruct (one_char _ u Hall Hlo Hhi) as (b & -> & Hb).
    apply Ascii.eqb_eq in Hb. apply IH in Hm. simpl. now rewrite Hb, Hm.
  - destruct w as [|b w]; [discriminate |]. simpl. intros [= Hb Hw].
    change (String b w) with (String b "" ++ w).
    constructor; simpl; try lia; [| now apply IH].
    unfold chr_i. rewrite Hb. now rewrite Ascii.eqb_refl.
Qed.

(** Searching for a literal is substring containment. *)
Lemma found_literal (x s : string) : found (literal x) s = contains x s.
Proof.
  apply eq_true_iff_eq. rewrite found_iff, contains_iff. split.
  - intros (j & w & (pre & post & -> & _) & Hw).
    apply matches_literal in Hw as ->. now exists pre, post.
  - intros (pre & post & ->). exists (String.length pre), x. split.
    + now exists pre, post.
    + now apply matches_literal.
Qed.

Lemma found_about_us (s : string) :
  found about_pattern s = true <-> mentions_about_us s.
Proof.
  unfold about_pattern, mentions_about_us. rewrite found_iff.
  split; intros (j & w & Ho & Hw); exists j, w; (split; [exact Ho |]);
    now apply (matches_literal_i "About Us").
Qed.

(** ** The traversal *)

(** C3.  When fetching or parsing a business page raises, the Business Page
    Handler returns with the record collection unchanged (no record, no
    partial record), and the category traversal goes on with the next
    business link: every later link whose target resolves has the handler
    invoked on it. *)
Theorem failed_business_page_skipped (W : world)
  (category_url chamber_name category_name href business_url : string)
  (link : node) (rest : list (string * node)) (st : scraper) :
  urljoin W category_url href = Some business_url ->
  fetch W (requests st) business_url = None ->
  let st' := scrape_business W business_url chamber_name category_name st in
  businesses st' = businesses st /\
  business_loop W category_url chamber_name category_name
    ((href, link) :: rest) st
  = business_loop W category_url chamber_name category_name rest st' /\
  forall l, In l (resolved W category_url rest) ->
    In (CallBusiness (fst l) chamber_name category_name)
      (calls (business_loop W category_url chamber_name category_name
                ((href, link) :: rest) st)).
Proof.
  intros Hjoin Hfetch st'. repeat split.
  - unfold st'. now rewrite scrape_business_businesses, Hfetch.
  - cbn [business_loop]. now rewrite Hjoin.
  - intros l Hl. rewrite business_loop_calls. apply in_or_app. right.
    cbn [resolved]. rewrite Hjoin. right.
    apply in_map with (f := fun l => CallBusiness (fst l) chamber_name category_name).
    exact Hl.
Qed.

Lemma failed_business_page_skipped_witness :
  let W := sample_world page_dining in
  let gone := "https://business.goschamber.com/list/member/gone-3" in
  urljoin W dining_url "/list/member/gone-3" = Some gone /\
  fetch W (requests (sent init)) gone = None /\
  businesses
    (scrape_business W gone "Old Saybrook Chamber" "Dining" (sent init))
  = businesses (sent init).
Proof.
  intros W gone. split; [reflexivity | split; [reflexivity |]].
  apply (failed_business_page_skipped W dining_url "Old Saybrook Chamber"
           "Dining" "/list/member/gone-3" gone (Text "")
           [("/list/member/joes-diner-7", Text "")] (sent init));
    reflexivity.
Defined.

Lemma yes_no_data (soup : soup) (u c k d : string) :
  let b := business_data soup u c k d in
  (has_website b = "Yes" <-> website b <> "") /\
  (has_website b = "No" <-> website b = "").
Proof.
  unfold business_data. cbn [has_website website].
  destruct (extract_website soup) as [|a s]; cbv [yes_no nonempty];
    repeat split; congruence.
Qed.

(** C4.  In every record of the collection built by the crawl,
    [has_website] is ["Yes"] exactly when [website] is a non-empty string
    (and ["No"] exactly when it is empty). *)
Theorem has_website_iff_website (W : world) (chambers : list (string * string))
  (b : business) :
  In b (businesses (scrape_chambers W chambers init)) ->
  (has_website b = "Yes" <-> website b <> "") /\
  (has_website b = "No" <-> website b = "").
Proof.
  pose proof (scrape_chambers_keeps W
                (fun b => (has_website b = "Yes" <-> website b <> "") /\
                          (has_website b = "No" <-> website b = ""))
                yes_no_data chambers init (Forall_nil _)) as H.
  rewrite Forall_forall in H. apply H.
Qed.

Lemma has_website_iff_website_witness :
  let b :=
    business_data page_contact joes_url "Old Saybrook Chamber" "Dining"
      "2024-05-17" in
  (has_website b = "Yes" <-> website b <> "") /\
  (has_website b = "No" <-> website b = "").
Proof.
  intros b.
  apply (has_website_iff_website (sample_world page_root)
           [("Old Saybrook Chamber", root_url)] b).
  vm_compute. left. reflexivity.
Defined.

(** C8 (as amended).  On a successfully fetched listing page the downstream
    handler is invoked on the links whose target contains the path pattern
    ([/list/ql/] at chamber scope, [/list/member/] at category scope), in
    document order, once each, for as long as resolving the target against
    the page's URL succeeds, and on no other link; when every matching
    target resolves, that is exactly once per matching link.  A chamber
    root page without category links leaves the record collection as it
    was, and a category page with three links of which one matches, and
    resolves, has the Business Page Handler invoked exactly once. *)
Theorem handler_invoked_per_matching_link (W : world)
  (url chamber_name category_name : string) (soup : soup) (st : scraper) :
  fetch W (requests st) url = Some soup ->
  let all_links := find_all_a (fun _ => true) soup in
  let business_links := find_all_a (found member_pattern) soup in
  let category_links := find_all_a (found ql_pattern) soup in
  (forall h n, In (h, n) business_links <->
     In (h, n) all_links /\ contains "/list/member/" h = true) /\
  (forall h n, In (h, n) category_links <->
     In (h, n) all_links /\ contains "/list/ql/" h = true) /\
  calls (scrape_category W url chamber_name category_name st) =
    (calls st ++ CallCategory url chamber_name category_name ::
       map (fun l => CallBusiness (fst l) chamber_name category_name)
         (resolved W url business_links))%list /\
  filter is_category_call (calls (scrape_chamber_list W url chamber_name st)) =
    (filter is_category_call (calls st) ++
       map (fun l => CallCategory (fst l) chamber_name
                       (strip (get_text (children (snd l)))))
         (resolved W url category_links))%list /\
  (forall links, exists done rest,
     links = (done ++ rest)%list /\
     Forall2 (fun l r => urljoin W url (fst l) = Some (fst r) /\ snd l = snd r)
       done (resolved W url links) /\
     (rest = [] \/
      exists h n rest', rest = (h, n) :: rest' /\ urljoin W url h = None)) /\
  (forall links, resolvable W url links ->
     List.length (resolved W url links) = List.length links /\
     Forall2 (fun l r => urljoin W url (fst l) = Some (fst r) /\ snd l = snd r)
       links (resolved W url links)) /\
  (category_links = [] ->
   businesses (scrape_chamber_list W url chamber_name st) = businesses st) /\
  (List.length all_links = 3 -> List.length business_links = 1 ->
   resolvable W url business_links ->
   List.length
     (filter is_business_call
        (calls (scrape_category W url chamber_name category_name st)))
   = List.length (filter is_business_call (calls st)) + 1).
Proof.
  intros Hfetch all_links business_links category_links.
  assert (Hcat : calls (scrape_category W url chamber_name category_name st) =
    (calls st ++ CallCategory url chamber_name category_name ::
       map (fun l => CallBusiness (fst l) chamber_name category_name)
         (resolved W url business_links))%list)
    by (now rewrite scrape_category_calls, Hfetch).
  split; [| split; [| split; [| split; [| split; [| split; [| split]]]]]].
  - intros h n. unfold business_links, member_pattern.
    now rewrite find_all_a_matching, found_literal.
  - intros h n. unfold category_links, ql_pattern.
    now rewrite find_all_a_matching, found_literal.
  - exact Hcat.
  - unfold scrape_chamber_list. rewrite Hfetch, category_loop_calls.
    reflexivity.
  - intros links. apply resolved_prefix.
  - intros links Hres.
    split; [now apply resolved_length | now apply resolved_links].
  - intros Hnone. unfold scrape_chamber_list. rewrite Hfetch.
    fold category_links. now rewrite Hnone.
  - intros _ Hone Hres. rewrite Hcat, filter_app, length_app.
    f_equal. cbn [filter is_business_call].
    rewrite filter_business_calls_all, length_map.
    now rewrite resolved_length.
Qed.

Lemma handler_invoked_per_matching_link_witness :
  let W := sample_world page_dining in
  List.length
    (filter is_business_call
       (calls (scrape_category W dining_url "Old Saybrook Chamber" "Dining"
                 init)))
  = List.length (filter is_business_call (calls init)) + 1.
Proof.
  intros W.
  apply (handler_invoked_per_matching_link W dining_url
           "Old Saybrook Chamber" "Dining" page_dining init).
  - reflexivity.
  - reflexivity.
  - reflexivity.
  - intros href link Hin. vm_compute in Hin.
    destruct Hin as [[= <- <-] | []]. discriminate.
Defined.

(** C8 as stated fails: both links of this category page match the
    business-detail pattern, but resolving the first target raises, the
    handler's [except] ends the traversal, and the Business Page Handler is
    not invoked at all. *)
Lemma unresolvable_link_ends_traversal :
  let W := sample_world page_two_members in
  fetch W (requests init) dining_url = Some page_two_members /\
  List.length
    (filter is_business_call
       (calls (scrape_category W dining_url "Old Saybrook Chamber" "Dining"
                 init)))
  <> List.length (find_all_a (found member_pattern) page_two_members).
Proof.
  split; [reflexivity |]. vm_compute. discriminate.
Qed.

(** ** Name and description of a record *)

Lemma find_all_false {A : Type} (f : A -> bool) (l : list A) :
  (forall x, In x l -> f x = false) -> List.find f l = None.
Proof.
  induction l as [|a l IH]; intros H; [reflexivity |]. cbn [List.find].
  rewrite (H a (or_introl eq_refl)). apply IH. intros x Hx. apply H. now right.
Qed.

Lemma find_first {A : Type} (f : A -> bool) (pre post : list A) (x : A) :
  f x = true -> (forall y, In y pre -> f y = false) ->
  List.find f (pre ++ x :: post)%list = Some x.
Proof.
  intros Hx. induction pre as [|a pre IH]; intros H; cbn [app List.find].
  - now rewrite Hx.
  - rewrite (H a (or_introl eq_refl)). apply IH. intros y Hy. apply H. now right.
Qed.

Lemma stored_description_take (d : string) :
  stored_description d = take 200 d.
Proof. now destruct d. Qed.

Lemma not_mentioned (s : string) :
  ~ mentions_about_us s -> found about_pattern s = false.
Proof.
  intros H. destruct (found about_pattern s) eqn:Hf; [| reflexivity].
  now apply found_about_us in Hf.
Qed.

(** C5 (as amended).  The stored description has at most 200 characters.
    It is empty when no string of the page, of whatever class (comments and
    the strings of script, style and template elements included), contains
    ["About Us"] up to case.  Otherwise it is computed from the parent of
    the first such string in document order: the strings below that parent
    that count as its text (ordinary text and CDATA sections, not comments
    nor the strings of script, style or template elements it contains; for
    a parent that is itself such an element, its own strings) are trimmed
    one by one, the empty ones dropped, the rest concatenated without
    separator, and the first 200 characters are kept. *)
Theorem description_from_about_us (soup : soup)
  (url chamber_name category_name date : string) :
  let stored :=
    description (business_data soup url chamber_name category_name date) in
  String.length stored <= 200 /\
  ((forall x, In x (all_strings (document soup)) ->
      ~ mentions_about_us (text_of x)) ->
   stored = "") /\
  (forall pre x post,
     all_strings (document soup) = (pre ++ x :: post)%list ->
     mentions_about_us (text_of x) ->
     (forall y, In y pre -> ~ mentions_about_us (text_of y)) ->
     stored =
       take 200
         (join (filter nonempty (map strip (tag_strings (parent_of x)))))).
Proof.
  unfold business_data. cbn [description].
  rewrite stored_description_take. unfold description_of, find_string.
  repeat split.
  - rewrite length_take. lia.
  - intros Hnone. rewrite find_all_false; [reflexivity |].
    intros x Hin. apply not_mentioned. exact (Hnone x Hin).
  - intros pre x post -> Hx Hpre.
    rewrite (find_first _ pre post x).
    + reflexivity.
    + now apply found_about_us.
    + intros y Hy. apply not_mentioned. exact (Hpre y Hy).
Qed.

Lemma description_from_about_us_witness :
  description
    (business_data page_about joes_url "Old Saybrook Chamber" "Dining"
       "2024-05-17")
  = "About UsFamily ownedsince 1962.".
Proof.
  apply (proj2 (proj2 (description_from_about_us page_about joes_url
                         "Old Saybrook Chamber" "Dining" "2024-05-17"))
           []
           (Navigable NavigableString "About Us "
              (Tag "div" []
                 [ Text "About Us "; Tag "b" [] [Text " Family owned "];
                   Text " since 1962. " ]))
           (tl (all_strings (document page_about)))).
  - reflexivity.
  - apply found_about_us. reflexivity.
  - intros y [].
Defined.

(** C5 as stated fails: the text of the ancestor trimmed as a whole keeps
    the blanks between its fragments, the stored description does not; and
    the phrase is first found in a comment, which is no text of the page. *)
Lemma description_not_trimmed_text :
  description
    (business_data page_about joes_url "Old Saybrook Chamber" "Dining"
       "2024-05-17")
  <> trimmed_text_description page_about /\
  description
    (business_data page_about_comment joes_url "Old Saybrook Chamber" "Dining"
       "2024-05-17")
  <> trimmed_text_description page_about_comment.
Proof. split; vm_compute; discriminate. Qed.

(** A script inside the parent is left out of the description, and a
    comment that contains the phrase is found before the text that does. *)
Example description_skips_script_and_finds_comment :
  description_of page_about_script = "About UsFamily owned" /\
  description_of page_about_comment = "Family owned".
Proof. split; reflexivity. Qed.

(** C10.  The business name is the trimmed text of the first [h1] element
    whenever there is one, also when that text is empty; the title is used
    only when the page has no [h1] element, and ["Unknown"] only when it has
    neither. *)
Theorem business_name_fallbacks (soup : soup)
  (url chamber_name category_name date : string) :
  let name :=
    business_name (business_data soup url chamber_name category_name date) in
  (forall h1, find "h1" soup = Some h1 ->
     name = strip (get_text (children h1))) /\
  (forall h1, find "h1" soup = Some h1 ->
     strip (get_text (children h1)) = "" -> name = "") /\
  (find "h1" soup = None ->
   forall title, find "title" soup = Some title ->
     name = strip (get_text (children title))) /\
  (find "h1" soup = None -> find "title" soup = None -> name = "Unknown").
Proof.
  unfold business_data. cbn [business_name]. unfold name_of. repeat split.
  - now intros h1 ->.
  - now intros h1 -> ->.
  - now intros -> title ->.
  - now intros -> ->.
Qed.

Lemma business_name_fallbacks_witness :
  business_name
    (business_data page_blank_h1 joes_url "Old Saybrook Chamber" "Dining"
       "2024-05-17")
  = "".
Proof.
  apply (proj1 (proj2 (business_name_fallbacks page_blank_h1 joes_url
                         "Old Saybrook Chamber" "Dining" "2024-05-17"))
           (Tag "h1" [] [Text "  "]));
    reflexivity.
Defined.

(** ** Saving *)



(** ** The command line *)

Lemma mem_In (x : string) (l : list string) : mem x l = true <-> In x l.
Proof.
  unfold mem. rewrite existsb_exists. split.
  - intros (y & Hy & He). apply String.eqb_eq in He as ->. exact Hy.
  - intros H. exists x. split; [exact H | apply String.eqb_refl].
Qed.

Lemma mem_not_In (x : string) (l : list string) : ~ In x l -> mem x l = false.
Proof.
  intros H. destruct (mem x l) eqn:Hm; [| reflexivity].
  now apply mem_In in Hm.
Qed.

Lemma no_flag_reads_on (argv : list string) :
  no_flag argv ->
  main_args argv =
  match read_output (tl argv) with
  | None => OutputError
  | Some (output_file, args) =>
      match read_chambers args with
      | None => PairsError
      | Some chambers => Run output_file chambers
      end
  end.
Proof.
  intros (H1 & H2 & H3). unfold main_args.
  now rewrite (mem_not_In _ _ H1), (mem_not_In _ _ H2), (mem_not_In _ _ H3).
Qed.

Lemma index_first (x : string) (a b : list string) :
  ~ In x a -> index x (a ++ x :: b)%list = Some (List.length a).
Proof.
  induction a as [|y a IH]; intros Hnot; cbn [app index List.length].
  - now rewrite String.eqb_refl.
  - destruct (String.eqb_spec y x) as [-> | _]; [destruct Hnot; now left |].
    rewrite IH; [reflexivity |]. intros H. apply Hnot. now right.
Qed.

Lemma pop_middle (a b : list string) (x : string) :
  pop (List.length a) (a ++ x :: b)%list = Some (a ++ b)%list.
Proof.
  induction a as [|y a IH]; cbn [app pop List.length]; [reflexivity |].
  now rewrite IH.
Qed.

Lemma nth_error_middle (a b : list string) (x : string) :
  nth_error (a ++ b) (List.length a + 1) = nth_error b 1.
Proof.
  induction a as [|y a IH]; [reflexivity | exact IH].
Qed.

Lemma read_output_absent (args : list string) :
  ~ In "--output" args -> read_output args = Some (default_output, args).
Proof. intros H. unfold read_output. now rewrite (mem_not_In _ _ H). Qed.

Lemma read_output_present (a b : list string) (f : string) :
  ~ In "--output" a ->
  read_output (a ++ "--output" :: f :: b)%list = Some (f, (a ++ b)%list).
Proof.
  intros Ha. unfold read_output.
  rewrite (proj2 (mem_In _ _)) by (apply in_or_app; right; now left).
  rewrite (index_first _ _ _ Ha), (nth_error_middle a _ "").
  cbn [nth_error]. now rewrite pop_middle, pop_middle.
Qed.


Lemma spelled_length (chambers : list (string * string)) :
  List.length (spelled chambers) = 2 * List.length chambers.
Proof.
  induction chambers as [|c cs IH]; [reflexivity |].
  cbn [spelled flat_map app List.length] in *. fold (spelled cs). lia.
Qed.

Lemma pairs_spelled (chambers : list (string * string)) :
  pairs (spelled chambers) = chambers.
Proof.
  induction chambers as [|[name url] cs IH]; [reflexivity |].
  cbn [spelled flat_map app pairs fst snd]. fold (spelled cs).
  now rewrite IH.
Qed.

Lemma read_chambers_spelled (chambers : list (string * string)) :
  chambers <> [] -> read_chambers (spelled chambers) = Some chambers.
Proof.
  intros Hne. unfold read_chambers. rewrite spelled_length.
  destruct chambers as [|c cs]; [now destruct Hne |].
  replace (2 * List.length (c :: cs)) with (S (S (2 * List.length cs)))
    by (cbn [List.length]; lia).
  cbn [Nat.eqb].
  replace (S (S (2 * List.length cs))) with (2 * (List.length (c :: cs)))
    by (cbn [List.length]; lia).
  rewrite Nat.mul_comm, Nat.Div0.mod_mul. cbn [Nat.eqb negb].
  now rewrite pairs_spelled.
Qed.


(** X1.  Without flags, the arguments after the program name are read as
    (name, URL) pairs in the order given and scraped into the default
    file. *)
Theorem main_args_pairs (prog : string) (chambers : list (string * string)) :
  chambers <> [] ->
  no_flag (prog :: spelled chambers) ->
  ~ In "--output" (spelled chambers) ->
  main_args (prog :: spelled chambers) = Run "chamber_businesses.csv" chambers.
Proof.
  intros Hne Hflags Hout. rewrite (no_flag_reads_on _ Hflags). cbn [tl].
  rewrite (read_output_absent _ Hout).
  now rewrite (read_chambers_spelled _ Hne).
Qed.

Lemma main_args_pairs_witness :
  main_args
    [ "chamber_scraper.py"; "Clinton";
      "https://business.clintonchamber.org/list"; "Madison";
      "https://business.madisonchamber.com/list" ]
  = Run "chamber_businesses.csv"
      [ ("Clinton", "https://business.clintonchamber.org/list");
        ("Madison", "https://business.madisonchamber.com/list") ].
Proof.
  apply (main_args_pairs "chamber_scraper.py"
           [ ("Clinton", "https://business.clintonchamber.org/list");
             ("Madison", "https://business.madisonchamber.com/list") ]).
  - discriminate.
  - repeat split; intros H; repeat (destruct H as [H | H]; [discriminate H |]);
      exact H.
  - intros H; repeat (destruct H as [H | H]; [discriminate H |]); exact H.
Defined.

(** X2.  The first [--output] and the argument after it are taken out
    wherever they stand; what is left, in order, is read as before (the
    default chambers when nothing is left), and a later [--output] is an
    ordinary argument. *)
Theorem main_args_output_anywhere (prog f : string) (a b : list string) :
  no_flag (prog :: a ++ "--output" :: f :: b) ->
  ~ In "--output" a ->
  main_args (prog :: a ++ "--output" :: f :: b) =
  match (a ++ b)%list with
  | [] => Run f get_default_chambers
  | _ :: _ =>
      if Nat.odd (List.length (a ++ b)) then PairsError
      else Run f (pairs (a ++ b))
  end.
Proof.
  intros Hflags Ha. rewrite (no_flag_reads_on _ Hflags). cbn [tl].
  rewrite (read_output_present _ _ _ Ha). unfold read_chambers.
  destruct (a ++ b)%list as [|x l] eqn:Hab; [reflexivity |].
  cbn [List.length Nat.eqb].
  rewrite <- Nat.bit0_mod, Nat.bit0_odd.
  now destruct (Nat.odd (S (List.length l))).
Qed.

Lemma main_args_output_anywhere_witness :
  main_args
    [ "chamber_scraper.py"; "Clinton"; "--output"; "results.csv";
      "https://business.clintonchamber.org/list" ]
  = Run "results.csv"
      [("Clinton", "https://business.clintonchamber.org/list")].
Proof.
  apply (main_args_output_anywhere "chamber_scraper.py" "results.csv"
           ["Clinton"] ["https://business.clintonchamber.org/list"]).
  - repeat split; intros H; repeat (destruct H as [H | H]; [discriminate H |]);
      exact H.
  - intros H; repeat (destruct H as [H | H]; [discriminate H |]); exact H.
Defined.

(** X3.  A help flag anywhere in [sys.argv], even as the value given to
    [--output], makes [main] print the usage and stop: nothing is scraped
    and no file is touched. *)
Theorem main_help_first (W : world) (join_cwd : string -> string)
  (argv : list string) (fs : filesystem) :
  In "--help" argv \/ In "-h" argv ->
  main_args argv = Usage /\
  main_scraper W argv = init /\
  main W join_cwd argv fs = Some fs.
Proof.
  intros H.
  assert (Hu : main_args argv = Usage).
  { unfold main_args. destruct H as [H | H]; apply mem_In in H; rewrite H;
      [reflexivity | now rewrite orb_true_r]. }
  unfold main_scraper, main. now rewrite Hu.
Qed.

Lemma main_help_first_witness :
  main_args ["chamber_scraper.py"; "--output"; "-h"] = Usage.
Proof.
  apply (main_help_first (sample_world page_root) (fun f => f)
           ["chamber_scraper.py"; "--output"; "-h"] no_files).
  right. right. right. now left.
Defined.

(** X20.  Without a help flag, [--list-defaults] anywhere in [sys.argv]
    makes [main] list the default chambers and stop, whatever the other
    arguments: nothing is scraped and no file is touched. *)
Theorem main_list_defaults (W : world) (join_cwd : string -> string)
  (argv : list string) (fs : filesystem) :
  ~ In "--help" argv -> ~ In "-h" argv -> In "--list-defaults" argv ->
  main_args argv = ListDefaults /\
  main_scraper W argv = init /\
  main W join_cwd argv fs = Some fs.
Proof.
  intros H1 H2 H3.
  assert (Hl : main_args argv = ListDefaults).
  { unfold main_args.
    now rewrite (mem_not_In _ _ H1), (mem_not_In _ _ H2),
      (proj2 (mem_In _ _) H3). }
  unfold main_scraper, main. now rewrite Hl.
Qed.

Lemma main_list_defaults_witness :
  main_args ["chamber_scraper.py"; "Clinton"; "--list-defaults"]
  = ListDefaults.
Proof.
  apply (main_list_defaults (sample_world page_root) (fun f => f)
           ["chamber_scraper.py"; "Clinton"; "--list-defaults"] no_files).
  - intros H; repeat (destruct H as [H | H]; [discriminate H |]); exact H.
  - intros H; repeat (destruct H as [H | H]; [discriminate H |]); exact H.
  - right. right. now left.
Defined.



(** ** What a crawl adds to the state *)

Ltac grows_parts := refine (conj _ (conj _ (conj _ (conj _ (conj _ _))))).

Section Growth.

Variable W : world.

Lemma grows_refl (ok : string -> Prop) (st : scraper) : grows 0 ok st st.
Proof.
  exists [], []. rewrite !app_nil_r. cbn [List.length filter].
  grows_parts; try reflexivity; try lia; intros ? [].
Qed.

Lemma grows_trans (k1 k2 : nat) (ok : string -> Prop) (a b c : scraper) :
  grows k1 ok a b -> grows k2 ok b c -> grows (k1 + k2) ok a c.
Proof.
  intros (bs1 & cs1 & Hb1 & Hc1 & Hr1 & Hok1 & Hn1 & Hin1)
         (bs2 & cs2 & Hb2 & Hc2 & Hr2 & Hok2 & Hn2 & Hin2).
  exists (bs1 ++ bs2)%list, (cs1 ++ cs2)%list.
  rewrite Hb2, Hb1, Hc2, Hc1, Hr2, Hr1, !app_assoc, filter_app, !length_app.
  grows_parts; try reflexivity; try lia.
  - intros x Hx. apply in_app_or in Hx as [Hx | Hx]; auto.
  - intros x Hx. apply in_or_app.
    apply in_app_or in Hx as [Hx | Hx]; [left | right]; auto.
Qed.

Lemma grows_weaken (k : nat) (ok ok' : string -> Prop) (a b : scraper) :
  (forall x, ok x -> ok' x) -> grows k ok a b -> grows k ok' a b.
Proof.
  intros Himp (bs & cs & Hb & Hc & Hr & Hok & Hn & Hin).
  exists bs, cs. grows_parts; auto.
Qed.

Lemma scrape_business_grows (u c k : string) (st : scraper) :
  grows 0 (eq c) st (scrape_business W u c k st).
Proof.
  unfold scrape_business. cbn [enter requests].
  destruct (fetch W (requests st) u) as [soup|].
  - exists [business_data soup u c k (today W (S (requests st)))],
           [CallBusiness u c k].
    cbn [append sent enter businesses calls requests List.length filter
         is_business_call].
    grows_parts; try reflexivity; try lia.
    + intros x [<- | []]. reflexivity.
    + intros b [<- | []]. now left.
  - exists [], [CallBusiness u c k].
    cbn [sent enter businesses calls requests List.length filter is_business_call].
    rewrite app_nil_r. grows_parts; try reflexivity; try lia.
    + intros x [<- | []]. reflexivity.
    + intros b [].
Qed.

Lemma business_loop_grows (cu c k : string) (links : list (string * node)) :
  forall st, grows 0 (eq c) st (business_loop W cu c k links st).
Proof.
  induction links as [|[href link] rest IH]; intros st; cbn [business_loop];
    [apply grows_refl |].
  destruct (urljoin W cu href) as [u|]; [| apply grows_refl].
  exact (grows_trans 0 0 _ _ _ _ (scrape_business_grows u c k st) (IH _)).
Qed.

Lemma enter_category_grows (cu c k : string) (st : scraper) :
  grows 0 (eq c) st (sent (enter (CallCategory cu c k) st)).
Proof.
  exists [], [CallCategory cu c k].
  cbn [sent enter businesses calls requests List.length filter
       is_business_call].
  rewrite app_nil_r. grows_parts; try reflexivity; try lia.
  - intros x [<- | []]. reflexivity.
  - intros b [].
Qed.

Lemma scrape_category_grows (cu c k : string) (st : scraper) :
  grows 0 (eq c) st (scrape_category W cu c k st).
Proof.
  unfold scrape_category. cbn [enter requests].
  destruct (fetch W (requests st) cu) as [soup|].
  - exact (grows_trans 0 0 _ _ _ _ (enter_category_grows cu c k st)
             (business_loop_grows _ _ _ _ _)).
  - apply enter_category_grows.
Qed.

Lemma category_loop_grows (base c : string) (links : list (string * node)) :
  forall st, grows 0 (eq c) st (category_loop W base c links st).
Proof.
  induction links as [|[href link] rest IH]; intros st; cbn [category_loop];
    [apply grows_refl |].
  destruct (urljoin W base href) as [u|]; [| apply grows_refl].
  exact (grows_trans 0 0 _ _ _ _ (scrape_category_grows u c _ st) (IH _)).
Qed.

Lemma sent_grows (ok : string -> Prop) (st : scraper) :
  grows 1 ok st (sent st).
Proof.
  exists [], []. cbn [sent businesses calls requests List.length filter].
  rewrite !app_nil_r. grows_parts; try reflexivity; try lia; intros ? [].
Qed.

Lemma scrape_chamber_list_grows (base c : string) (st : scraper) :
  grows 1 (eq c) st (scrape_chamber_list W base c st).
Proof.
  unfold scrape_chamber_list.
  destruct (fetch W (requests st) base) as [soup|]; [| apply sent_grows].
  exact (grows_trans 1 0 _ _ _ _ (sent_grows _ st)
           (category_loop_grows _ _ _ _)).
Qed.

Lemma scrape_chambers_grows (chambers : list (string * string)) :
  forall st,
    grows (List.length chambers) (fun c => In c (map fst chambers)) st
      (scrape_chambers W chambers st).
Proof.
  induction chambers as [|[name url] rest IH]; intros st;
    cbn [scrape_chambers List.length map fst]; [apply grows_refl |].
  apply (grows_trans 1 (List.length rest) _ st
           (scrape_chamber_list W url name st)).
  - apply (grows_weaken 1 (eq name)); [intros x <-; now left |].
    apply scrape_chamber_list_grows.
  - apply (grows_weaken _ (fun c => In c (map fst rest)));
      [intros x Hx; now right | apply IH].
Qed.

Lemma scrape_chambers_app (a b : list (string * string)) :
  forall st,
    scrape_chambers W (a ++ b) st = scrape_chambers W b (scrape_chambers W a st).
Proof.
  induction a as [|[name url] a IH]; intros st; cbn [app scrape_chambers];
    [reflexivity | apply IH].
Qed.

End Growth.

(** X5.  A crawl only appends: the records collected before are still
    there, in the same order and unchanged, at the front of the collection,
    and so are the invocations logged before. *)
Theorem crawl_appends_only (W : world) (chambers : list (string * string))
  (st : scraper) :
  exists bs cs,
    businesses (scrape_chambers W chambers st) = (businesses st ++ bs)%list /\
    calls (scrape_chambers W chambers st) = (calls st ++ cs)%list.
Proof.
  destruct (scrape_chambers_grows W chambers st) as (bs & cs & Hb & Hc & _).
  now exists bs, cs.
Qed.

(** X6.  No page is requested twice and nothing is retried: a crawl sends
    one request per chamber and one per handler invocation, and it appends
    at most one record per invocation of the Business Page Handler. *)
Theorem crawl_one_request_per_page (W : world)
  (chambers : list (string * string)) :
  let st := scrape_chambers W chambers init in
  requests st = List.length chambers + List.length (calls st) /\
  List.length (businesses st)
  <= List.length (filter is_business_call (calls st)).
Proof.
  destruct (scrape_chambers_grows W chambers init)
    as (bs & cs & Hb & Hc & Hr & _ & Hn & _).
  cbn zeta. rewrite Hb, Hc, Hr. cbn [init businesses calls requests app].
  split; [lia | exact Hn].
Qed.

(** X7.  Every record of a crawl carries the context of an invocation of
    the Business Page Handler that was made: its URL, chamber and category
    are those of a logged invocation, and its chamber is the name of one of
    the chambers scraped, never a value read from a page. *)
Theorem crawl_records_context (W : world) (chambers : list (string * string))
  (b : business) :
  let st := scrape_chambers W chambers init in
  In b (businesses st) ->
  In (CallBusiness (chamber_url b) (chamber b) (category b)) (calls st) /\
  In (chamber b) (map fst chambers).
Proof.
  destruct (scrape_chambers_grows W chambers init)
    as (bs & cs & Hb & Hc & _ & Hok & _ & Hin).
  cbn zeta. rewrite Hb, Hc. cbn [init businesses calls app]. intros Hb'.
  split; [now apply Hin |]. exact (Hok _ (Hin b Hb')).
Qed.

Lemma crawl_records_context_witness :
  let b :=
    business_data page_contact joes_url "Old Saybrook Chamber" "Dining"
      "2024-05-17" in
  In (chamber b) (map fst [("Old Saybrook Chamber", root_url)]).
Proof.
  intros b.
  apply (crawl_records_context (sample_world page_root)
           [("Old Saybrook Chamber", root_url)] b).
  vm_compute. left. reflexivity.
Defined.

Lemma offline_chambers (W : world) (chambers : list (string * string)) :
  (forall n url, fetch W n url = None) ->
  forall st,
    scrape_chambers W chambers st =
    Scraper (businesses st) (requests st + List.length chambers) (calls st).
Proof.
  intros Hoff. induction chambers as [|[name url] rest IH]; intros st;
    cbn [scrape_chambers List.length].
  - rewrite Nat.add_0_r. now destruct st.
  - unfold scrape_chamber_list at 1. rewrite Hoff, IH.
    cbn [sent businesses requests calls]. f_equal. lia.
Qed.

(** X8.  When no page can be fetched the crawl still visits every chamber:
    it sends one request per chamber, invokes no handler, collects nothing,
    and [main] then leaves the files as they were. *)
Theorem offline_crawl (W : world) (join_cwd : string -> string)
  (argv : list string) (chambers : list (string * string)) (fs : filesystem) :
  (forall n url, fetch W n url = None) ->
  scrape_chambers W chambers init = Scraper [] (List.length chambers) [] /\
  main W join_cwd argv fs = Some fs.
Proof.
  intros Hoff. split.
  - now rewrite (offline_chambers W chambers Hoff).
  - unfold main. destruct (main_args argv); try reflexivity.
    now rewrite (offline_chambers W _ Hoff).
Qed.

Lemma offline_crawl_witness :
  let W := World sample_urljoin (fun _ _ => None) (fun _ => "2024-05-17")
             (fun _ => true) in
  main W (fun f => f) ["chamber_scraper.py"] no_files = Some no_files.
Proof.
  intros W.
  apply (offline_crawl W (fun f => f) ["chamber_scraper.py"]
           get_default_chambers no_files).
  reflexivity.
Defined.

(** X9.  One chamber whose root page cannot be fetched does not stop the
    run: the chambers before it have been scraped, it costs one request and
    adds nothing, and the chambers after it are scraped from there. *)
Theorem failed_chamber_skipped (W : world) (a b : list (string * string))
  (name url : string) (st : scraper) :
  let st1 := scrape_chambers W a st in
  fetch W (requests st1) url = None ->
  scrape_chambers W (a ++ (name, url) :: b) st
  = scrape_chambers W b
      (Scraper (businesses st1) (S (requests st1)) (calls st1)).
Proof.
  intros st1 Hfetch. rewrite scrape_chambers_app. fold st1.
  cbn [scrape_chambers]. unfold scrape_chamber_list. now rewrite Hfetch.
Qed.

Lemma failed_chamber_skipped_witness :
  let W := sample_world page_root in
  scrape_chambers W
    [("Old Saybrook Chamber", root_url); ("Gone", "https://gone.example/list")]
    init
  = Scraper
      (businesses (scrape_chambers W [("Old Saybrook Chamber", root_url)] init))
      (S (requests (scrape_chambers W [("Old Saybrook Chamber", root_url)] init)))
      (calls (scrape_chambers W [("Old Saybrook Chamber", root_url)] init)).
Proof.
  intros W.
  apply (failed_chamber_skipped W [("Old Saybrook Chamber", root_url)] []
           "Gone" "https://gone.example/list" init).
  reflexivity.
Defined.

(** ** Shapes of the extracted fields *)

Lemma all_in_app (q : ascii -> bool) (u v : string) :
  all_in q (u ++ v) = all_in q u && all_in q v.
Proof.
  induction u as [|c u IH]; [reflexivity |]. simpl. now rewrite IH, andb_assoc.
Qed.

Lemma all_in_imp (q q' : ascii -> bool) (u : string) :
  (forall c, q c = true -> q' c = true) ->
  all_in q u = true -> all_in q' u = true.
Proof.
  intros Himp. induction u as [|c u IH]; [reflexivity |]. simpl.
  rewrite !andb_true_iff. intros [Hc Hu]. split; auto.
Qed.

Lemma matches_min_length (p : pattern) (w : string) :
  matches p w -> min_length p <= String.length w.
Proof.
  induction 1 as [|a p u v _ Hlo _ _ IH]; [apply le_n |].
  cbn [min_length]. rewrite length_append. lia.
Qed.

Lemma matches_max_length (p : pattern) (w : string) :
  matches p w -> forall m, max_length p = Some m -> String.length w <= m.
Proof.
  induction 1 as [|a p u v _ _ Hhi _ IH]; cbn [max_length].
  - intros m [= <-]. apply le_n.
  - destruct (hi a) as [h|]; [| discriminate].
    destruct (max_length p) as [m'|]; [| discriminate].
    intros m [= <-]. rewrite length_append. specialize (IH m' eq_refl).
    simpl in Hhi. lia.
Qed.

Lemma matches_classes (q : ascii -> bool) (p : pattern) (w : string) :
  matches p w -> classes_within q p -> all_in q w = true.
Proof.
  induction 1 as [|a p u v Hall _ _ _ IH]; intros Hq; [reflexivity |].
  inversion Hq as [|a' p' Ha Hp]; subst.
  rewrite all_in_app, (all_in_imp _ _ _ Ha Hall), (IH Hp). reflexivity.
Qed.

Lemma matches_app_inv (p q : pattern) :
  forall w, matches (p ++ q)%list w ->
  exists u v, w = u ++ v /\ matches p u /\ matches q v.
Proof.
  induction p as [|a p IH]; intros w; cbn [app].
  - intros H. exists "", w. repeat split; [constructor | exact H].
  - inversion 1 as [|a' p' u v Hall Hlo Hhi Hm]; subst.
    destruct (IH v Hm) as (u' & v' & -> & Hu' & Hv').
    exists (u ++ u'), v'. rewrite append_assoc.
    repeat split; [now constructor | exact Hv'].
Qed.

(** A literal inside a pattern occurs in whatever the pattern matches. *)
Lemma matches_literal_inside (p q : pattern) (x w : string) :
  matches (p ++ literal x ++ q)%list w -> contains x w = true.
Proof.
  intros H. apply matches_app_inv in H as (u & v & -> & _ & H).
  apply matches_app_inv in H as (m & t & -> & Hm & _).
  apply matches_literal in Hm as ->. apply contains_iff. now exists u, t.
Qed.

Lemma occurs_contains (x w s : string) (j : nat) :
  occurs_at j w s -> contains x w = true -> contains x s = true.
Proof.
  intros (pre & post & -> & _). rewrite !contains_iff.
  intros (a & b & ->). exists (pre ++ a), (b ++ post).
  now rewrite !append_assoc.
Qed.

Lemma occurs_length (w s : string) (j : nat) :
  occurs_at j w s -> String.length w <= String.length s.
Proof.
  intros (pre & post & -> & _). rewrite !length_append. lia.
Qed.

Lemma group0_or_empty_matches (p : pattern) (s : string) :
  group0_or_empty p s = "" \/ matches p (group0_or_empty p s).
Proof.
  destruct (group0_or_empty_spec p s) as [(i & _ & Hm & _) | [_ H]];
    [now right | now left].
Qed.

Lemma phone_classes : classes_within phone_char phone_pattern.
Proof.
  unfold phone_pattern, phone_char.
  repeat constructor; cbn [cls opt exactly]; intros c Hc; rewrite Hc;
    repeat rewrite orb_true_r; reflexivity.
Qed.

(** X10.  A phone number returned by the extractor has between 10 and 14
    characters, all of them digits, parentheses, hyphens, dots or
    whitespace. *)
Theorem extract_phone_shape (soup : soup) :
  extract_phone soup = "" \/
  10 <= String.length (extract_phone soup) <= 14 /\
  all_in phone_char (extract_phone soup) = true.
Proof.
  unfold extract_phone.
  destruct (group0_or_empty_matches phone_pattern (get_text soup))
    as [H | H]; [now left | right].
  split; [split |].
  - exact (matches_min_length _ _ H).
  - exact (matches_max_length _ _ H 14 eq_refl).
  - exact (matches_classes _ _ _ H phone_classes).
Qed.

Lemma email_classes : classes_within not_space email_pattern.
Proof.
  repeat constructor; cbn [cls plus at_least one];
    intros [[] [] [] [] [] [] [] []]; vm_compute; congruence.
Qed.

(** X11.  An email address returned by the extractor contains [@], has at
    least six characters and no whitespace. *)
Theorem extract_email_shape (soup : soup) :
  extract_email soup = "" \/
  contains "@" (extract_email soup) = true /\
  6 <= String.length (extract_email soup) /\
  all_in not_space (extract_email soup) = true.
Proof.
  unfold extract_email.
  destruct (group0_or_empty_matches email_pattern (get_text soup))
    as [H | H]; [now left | right].
  split; [| split].
  - apply (matches_literal_inside [plus email_local]
             [plus email_domain; one (chr "."); at_least 2 is_alpha_az] "@").
    exact H.
  - exact (matches_min_length _ _ H).
  - exact (matches_classes _ _ _ H email_classes).
Qed.

(** ** Trimming *)

Lemma lstrip_starts_clean (s : string) : starts_clean (lstrip s).
Proof.
  induction s as [|c s IH]; [exact I |]. cbn [lstrip].
  destruct (is_space c) eqn:Hc; [exact IH | exact Hc].
Qed.

Lemma lstrip_clean (s : string) : starts_clean s -> lstrip s = s.
Proof.
  destruct s as [|c s]; [reflexivity |]. cbn [starts_clean lstrip].
  now intros ->.
Qed.

Lemma rstrip_starts_clean (s : string) :
  starts_clean s -> starts_clean (rstrip s).
Proof.
  destruct s as [|c s]; [exact (fun H => H) |]. cbn [starts_clean rstrip].
  intros Hc. destruct (rstrip s); [now rewrite Hc | exact Hc].
Qed.

Lemma rstrip_idempotent (s : string) : rstrip (rstrip s) = rstrip s.
Proof.
  induction s as [|c s IH]; [reflexivity |]. cbn [rstrip].
  destruct (rstrip s) as [|d r] eqn:Hr.
  - destruct (is_space c) eqn:Hc; [reflexivity |].
    cbn [rstrip]. now rewrite Hc.
  - cbn [rstrip]. cbn [rstrip] in IH. now rewrite IH.
Qed.

(** [strip] leaves a stripped string as it is. *)
Lemma strip_idempotent (s : string) : strip (strip s) = strip s.
Proof.
  unfold strip.
  rewrite (lstrip_clean (rstrip (lstrip s)))
    by apply rstrip_starts_clean, lstrip_starts_clean.
  apply rstrip_idempotent.
Qed.

Lemma stripped_strings_stripped (cs : list node) (f : string) :
  In f (stripped_strings cs) -> strip f = f /\ f <> "".
Proof.
  unfold stripped_strings. rewrite filter_In, in_map_iff.
  intros [(x & <- & _) Hne]. split; [apply strip_idempotent |].
  now apply nonempty_iff.
Qed.

(** X12.  An address returned by the extractor is one of the page's text
    fragments, with no whitespace around it; it has at least 11 characters
    and contains a comma and [CT]. *)
Theorem extract_address_shape (soup : soup) :
  extract_address soup = "" \/
  In (extract_address soup) (stripped_strings soup) /\
  strip (extract_address soup) = extract_address soup /\
  11 <= String.length (extract_address soup) /\
  contains "," (extract_address soup) = true /\
  contains "CT" (extract_address soup) = true.
Proof.
  unfold extract_address.
  destruct (address_loop_result (stripped_strings soup))
    as [H | [Hin (j & w & Ho & Hm)]]; [now left | right].
  split; [exact Hin | split; [| split; [| split]]].
  - now apply (stripped_strings_stripped soup).
  - pose proof (matches_min_length _ _ Hm) as Hlen.
    pose proof (occurs_length _ _ _ Ho). cbn in Hlen. lia.
  - apply (occurs_contains _ w _ j Ho).
    apply (matches_literal_inside
             [plus is_digit; plus is_space; plus is_word; star dot] 
             [star is_space; one (chr "C"); one (chr "T"); star is_space;
              exactly 5 is_digit] ",").
    exact Hm.
  - apply (occurs_contains _ w _ j Ho).
    apply (matches_literal_inside
             [plus is_digit; plus is_space; plus is_word; star dot;
              one (chr ","); star is_space]
             [star is_space; exactly 5 is_digit] "CT").
    exact Hm.
Qed.

Lemma name_of_stripped (soup : soup) : strip (name_of soup) = name_of soup.
Proof.
  unfold name_of. destruct (find "h1" soup); [apply strip_idempotent |].
  destruct (find "title" soup); [apply strip_idempotent | reflexivity].
Qed.

Lemma record_fields_data (soup : soup) (u c k d : string) :
  let b := business_data soup u c k d in
  strip (business_name b) = business_name b /\
  strip (address b) = address b /\
  (website b = "" \/ startswith "http" (website b) = true) /\
  chamber_url b = u.
Proof.
  unfold business_data. cbn [business_name address website chamber_url].
  split; [apply name_of_stripped | split; [| split; [| reflexivity]]].
  - destruct (extract_address_shape soup) as [-> | (_ & H & _)];
      [reflexivity | exact H].
  - unfold extract_website.
    destruct (website_loop_result (map fst (find_all_a (fun _ => true) soup)))
      as [H | [_ H]]; [now left | right].
    unfold qualifies in H. apply andb_true_iff in H as [H _].
    now apply andb_true_iff in H as [_ H].
Qed.

(** X13.  In every record of a crawl the business name and the address have
    no whitespace around them, and the website is empty or begins with
    [http]. *)
Theorem crawl_record_fields (W : world) (chambers : list (string * string))
  (b : business) :
  In b (businesses (scrape_chambers W chambers init)) ->
  strip (business_name b) = business_name b /\
  strip (address b) = address b /\
  (website b = "" \/ startswith "http" (website b) = true).
Proof.
  pose proof (scrape_chambers_keeps W
                (fun b =>
                   strip (business_name b) = business_name b /\
                   strip (address b) = address b /\
                   (website b = "" \/ startswith "http" (website b) = true))
                (fun soup u c k d =>
                   match record_fields_data soup u c k d with
                   | conj H1 (conj H2 (conj H3 _)) => conj H1 (conj H2 H3)
                   end)
                chambers init (Forall_nil _)) as H.
  rewrite Forall_forall in H. apply H.
Qed.

Lemma crawl_record_fields_witness :
  let b :=
    business_data page_contact joes_url "Old Saybrook Chamber" "Dining"
      "2024-05-17" in
  strip (business_name b) = business_name b /\
  strip (address b) = address b /\
  (website b = "" \/ startswith "http" (website b) = true).
Proof.
  intros b.
  apply (crawl_record_fields (sample_world page_root)
           [("Old Saybrook Chamber", root_url)] b).
  vm_compute. left. reflexivity.
Defined.

Lemma contains_trans (x y z : string) :
  contains x y = true -> contains y z = true -> contains x z = true.
Proof.
  rewrite !contains_iff. intros (a & b & ->) (pre & post & ->).
  exists (pre ++ a), (b ++ post). now rewrite !append_assoc.
Qed.

(** X14.  A link into the directory of one of the default chambers is never
    taken for a business's website. *)
Theorem default_chamber_never_website (soup : soup) (name url href : string) :
  In (name, url) get_default_chambers ->
  contains url href = true ->
  extract_website soup <> href.
Proof.
  intros Hdef Hurl Heq.
  assert (Hb : contains "business." url = true /\ url <> "").
  { simpl in Hdef.
    repeat (destruct Hdef as [[= <- <-] | Hdef];
            [split; [reflexivity | discriminate] |]).
    destruct Hdef. }
  destruct Hb as [Hb Hne].
  unfold extract_website in Heq.
  destruct (website_loop_result (map fst (find_all_a (fun _ => true) soup)))
    as [H | [_ H]]; rewrite Heq in H.
  - rewrite H in Hurl. destruct url; [now apply Hne | discriminate Hurl].
  - unfold qualifies in H. apply andb_true_iff in H as [H _].
    apply andb_true_iff in H as [H _]. apply negb_true_iff in H.
    assert (Hc : contains "business." (lower href) = true)
      by (apply contains_lower; [reflexivity | exact (contains_trans _ _ _ Hb Hurl)]).
    unfold any_in, platform_denylist in H. cbn [existsb] in H.
    rewrite Hc in H. now rewrite !orb_true_r in H.
Qed.

Lemma default_chamber_never_website_witness :
  extract_website page_c1 <> "https://business.goschamber.com/list".
Proof.
  apply (default_chamber_never_website page_c1 "Old Saybrook Chamber"
           "https://business.goschamber.com/list").
  - now left.
  - reflexivity.
Defined.

(** ** The saved table and the run as a whole *)




Lemma row_injective (b1 b2 : business) :
  map (fun key => getitem key b1) fieldnames
  = map (fun key => getitem key b2) fieldnames ->
  b1 = b2.
Proof.
  destruct b1, b2. cbn. intros H. injection H as -> -> -> -> -> -> -> -> -> -> ->.
  reflexivity.
Qed.

Lemma map_injective {A B : Type} (f : A -> B) :
  (forall x y, f x = f y -> x = y) ->
  forall l1 l2, map f l1 = map f l2 -> l1 = l2.
Proof.
  intros Hf. induction l1 as [|a l1 IH]; intros [|b l2]; cbn [map];
    try discriminate; [reflexivity |].
  intros [= Ha Hl]. f_equal; [now apply Hf | now apply IH].
Qed.

(** X16.  Nothing of a record is lost in its row: two record collections
    that are written as the same table are the same collection. *)
Theorem rows_determine_records (bs1 bs2 : list business) :
  writerows bs1 writeheader = writerows bs2 writeheader -> bs1 = bs2.
Proof.
  unfold writerows, writeheader. cbn [app]. intros [= H].
  exact (map_injective _ row_injective bs1 bs2 H).
Qed.

Lemma rows_determine_records_witness :
  let b :=
    business_data page_contact joes_url "Old Saybrook Chamber" "Dining"
      "2024-05-17" in
  businesses
    (scrape_chambers (sample_world page_root)
       [("Old Saybrook Chamber", root_url)] init)
  = [b].
Proof.
  intros b. apply rows_determine_records. vm_compute. reflexivity.
Defined.

Lemma yes_no_field (soup : soup) (u c k d : string) :
  has_website (business_data soup u c k d)
  = yes_no (website (business_data soup u c k d)).
Proof. reflexivity. Qed.

Lemma summary_counts (bs : list business) :
  Forall (fun b => has_website b = yes_no (website b)) bs ->
  no_website bs
  = List.length (filter (fun b => (has_website b =? "No")%string) bs) /\
  List.length bs
  = no_website bs
    + List.length (filter (fun b => (has_website b =? "Yes")%string) bs).
Proof.
  unfold no_website. induction 1 as [|b bs Hb _ [IH1 IH2]]; [now split |].
  cbn [filter List.length]. rewrite Hb.
  destruct (website b); cbn [yes_no nonempty negb String.eqb Ascii.eqb
                              Bool.eqb andb List.length];
    rewrite IH1 in *; split; lia.
Qed.

(** X17.  The two counts printed after saving agree with the [has_website]
    column of a crawl's records: the first is the number of ["No"], the
    second the number of ["Yes"], and together they count every record. *)
Theorem summary_agrees_with_column (W : world)
  (chambers : list (string * string)) :
  let bs := businesses (scrape_chambers W chambers init) in
  fst (summary bs)
  = List.length (filter (fun b => (has_website b =? "No")%string) bs) /\
  snd (summary bs)
  = List.length (filter (fun b => (has_website b =? "Yes")%string) bs) /\
  fst (summary bs) + snd (summary bs) = List.length bs.
Proof.
  intros bs.
  destruct (summary_counts bs
              (scrape_chambers_keeps W _ yes_no_field chambers init
                 (Forall_nil _))) as [H1 H2].
  unfold summary. cbn [fst snd]. repeat split; lia.
Qed.



(** X19.  One category whose page cannot be fetched does not stop the
    chamber: the Category Page Handler is invoked on it, sends its one
    request, adds no record and invokes no Business Page Handler, and the
    remaining category links are handled from there. *)
Theorem failed_category_skipped (W : world)
  (base_url chamber_name href category_url : string) (link : node)
  (rest : list (string * node)) (st : scraper) :
  urljoin W base_url href = Some category_url ->
  fetch W (requests st) category_url = None ->
  category_loop W base_url chamber_name ((href, link) :: rest) st
  = category_loop W base_url chamber_name rest
      (Scraper (businesses st) (S (requests st))
         (calls st
            ++ [CallCategory category_url chamber_name
                  (strip (get_text (children link)))])).
Proof.
  intros Hjoin Hfetch. cbn [category_loop]. rewrite Hjoin.
  unfold scrape_category. cbn [enter requests]. now rewrite Hfetch.
Qed.

Lemma failed_category_skipped_witness :
  let W := sample_world page_root in
  category_loop W root_url "Old Saybrook Chamber"
    [ ("/list/ql/closed-3", Tag "a" [] [Text " Closed "]);
      ("/list/ql/dining-12", Tag "a" [] [Text "Dining"]) ] (sent init)
  = category_loop W root_url "Old Saybrook Chamber"
      [("/list/ql/dining-12", Tag "a" [] [Text "Dining"])]
      (Scraper [] 2
         [CallCategory "https://business.goschamber.com/list/ql/closed-3"
            "Old Saybrook Chamber" "Closed"]).
Proof.
  intros W.
  apply (failed_category_skipped W root_url "Old Saybrook Chamber"
           "/list/ql/closed-3"
           "https://business.goschamber.com/list/ql/closed-3"
           (Tag "a" [] [Text " Closed "])
           [("/list/ql/dining-12", Tag "a" [] [Text "Dining"])] (sent init));
    reflexivity.
Defined.
